(** * httpdshutdown: graceful shutdown of an http daemon

    A shallow embedding of [httpdshutdown.go]: the [Watcher], its constructor
    [NewWatcher], the connection observer [RecordConnState], the hook runner
    [RunHooks], the shutdown entry point [OnStop] and the signal loop
    [SigHandle].

    Conventions of the embedding:
    - a Go [error] is [option string]: [None] is [nil], [Some m] is a
      non-nil error whose [Error()] text is [m];
    - a [*Watcher] is [option Watcher]: [None] is the nil pointer;
    - a Go panic is the [Panics] outcome; it carries the panic message;
    - a [ShutdownHook] acts on an abstract [World] (whatever the daemon's
      hooks touch) and returns its error;
    - the observable behaviour of a run is recorded in a trace of events:
      the resolution of the [select] of [OnStop], every hook call with what
      it returned, and every value sent on the exit-code channel;
    - the [select] of [OnStop] races two channels; which one delivers first
      is decided by the environment (the other goroutines and the clock),
      so it is an input of the model, the [Race]; [OnStopTimed] works it
      out from the pending count, the timer and the connection events that
      arrive during the call. *)

From Stdlib Require Import ZArith Lia.
From stdpp Require Import base list strings numbers.

Set Default Proof Using "Type".

(** ** Go values *)

(** [error]: nil or a message ([errors.New]). *)
Definition error : Type := option string.

(** The result of a call: it returns or it panics. *)
Inductive outcome (A : Type) : Type :=
| Returns (a : A)
| Panics (msg : string).
Arguments Returns {A} a.
Arguments Panics {A} msg.

(** The line separator of [strings.Join(errStrs, "\n")]. *)
Definition newline : string := String (Ascii.ascii_of_nat 10) EmptyString.

(** [strings.Join]. *)
Definition strings_Join (elems : list string) (sep : string) : string :=
  String.concat sep elems.

(** ** net/http connection states ([http.ConnState]) *)
Inductive ConnState : Type :=
| StateNew
| StateActive
| StateIdle
| StateHijacked
| StateClosed.

(** ** Signals ([syscall.Signal], an integer; Linux numbering) *)
Definition Signal : Type := Z.
Definition SIGHUP : Signal := 1%Z.
Definition SIGINT : Signal := 2%Z.
Definition SIGQUIT : Signal := 3%Z.
Definition SIGTERM : Signal := 15%Z.

(** ** sync.WaitGroup

    The counter of a [sync.WaitGroup], after the contract the Go standard
    library documents: [Add] adds [delta] to the counter and panics when the
    counter goes negative; [Done] is [Add(-1)]; [Wait] returns once the
    counter is zero. *)
Module WaitGroup.
Definition t : Type := Z.
Definition new : t := 0%Z.
Definition Add (wg : t) (delta : Z) : outcome t :=
  let v := (wg + delta)%Z in
  if (v <? 0)%Z then Panics "sync: negative WaitGroup counter" else Returns v.
Definition Done (wg : t) : outcome t := Add wg (-1).
End WaitGroup.

(** How the [select] of [OnStop] resolved: [waitChan] delivered first (the
    [connsWG.Wait()] of the forked goroutine returned, the pending count
    reached zero) or the [time.After] channel delivered first (the grace
    period elapsed). *)
Inductive Race : Type :=
| DrainedFirst
| TimerFirst.

(** Observable events of a run. *)
Inductive Event : Type :=
| EvSelect (r : Race)             (* the select of OnStop resolved *)
| EvHook (i : nat) (e : error)    (* shutdownHooks[i] was called and returned e *)
| EvExit (code : Z).              (* code was sent on the exitcode channel *)

Section Shutdown.
Context {World : Type}.

(** [type ShutdownHook func() error] *)
Definition ShutdownHook : Type := World -> error * World.

(** [type Watcher struct] *)
Record Watcher : Type := mkWatcher {
  connsWG : WaitGroup.t;
  shutdownHooks : list ShutdownHook;
  timeoutMS : Z
}.

(** The running process: what the hooks act on, and the trace so far. *)
Record Proc : Type := mkProc {
  world : World;
  trace : list Event
}.

Definition emit (ev : Event) (p : Proc) : Proc :=
  {| world := world p; trace := trace p ++ [ev] |}.

(** *** A small monad for code that acts on the process and may panic *)
Definition Go (A : Type) : Type := Proc -> outcome A * Proc.

Definition ret {A} (a : A) : Go A := fun p => (Returns a, p).

Definition panic {A} (msg : string) : Go A := fun p => (Panics msg, p).

Definition bind {A B} (m : Go A) (k : A -> Go B) : Go B :=
  fun p =>
    match m p with
    | (Returns a, p') => k a p'
    | (Panics msg, p') => (Panics msg, p')
    end.

(** [exitcode <- code] *)
Definition send (code : Z) : Go unit :=
  fun p => (Returns tt, emit (EvExit code) p).

(** *** NewWatcher *)
Definition NewWatcher (timeoutMS : Z) (hooks : list ShutdownHook)
  : option Watcher * error :=
  if (timeoutMS <? 0)%Z then
    (None, Some "timeout must be a positive number")
  else
    (Some {| connsWG := WaitGroup.new;
             shutdownHooks := hooks;
             timeoutMS := timeoutMS |}, None).

(** *** RecordConnState *)
Definition setWG (w : Watcher) (wg : WaitGroup.t) : Watcher :=
  {| connsWG := wg; shutdownHooks := shutdownHooks w; timeoutMS := timeoutMS w |}.

Definition RecordConnState (w : option Watcher) (newState : ConnState)
  : outcome Watcher :=
  match w with
  | None => Panics "RecordConnState: receiver is nil"
  | Some w =>
      match newState with
      | StateNew =>
          match WaitGroup.Add (connsWG w) 1 with
          | Returns wg => Returns (setWG w wg)
          | Panics msg => Panics msg
          end
      | StateClosed | StateHijacked =>
          match WaitGroup.Done (connsWG w) with
          | Returns wg => Returns (setWG w wg)
          | Panics msg => Panics msg
          end
      | _ => Returns w
      end
  end.

(** A sequence of lifecycle notifications, delivered one after the other;
    the first panic ends the run. *)
Fixpoint observe (w : Watcher) (events : list ConnState) : outcome Watcher :=
  match events with
  | [] => Returns w
  | ev :: rest =>
      match RecordConnState (Some w) ev with
      | Returns w' => observe w' rest
      | Panics msg => Panics msg
      end
  end.

(** *** RunHooks *)

(** One iteration of [for _, f := range w.shutdownHooks]: [f] is the hook
    at index [i], [errStrs] the slice collected so far. *)
Definition hookIter (i : nat) (f : ShutdownHook) (errStrs : list string) (p : Proc)
  : list string * Proc :=
  let '(err, s) := f (world p) in
  let p' := {| world := s; trace := trace p ++ [EvHook i err] |} in
  match err with
  | Some m => (errStrs ++ ["shutdown hook err: " +:+ m], p')
  | None => (errStrs, p')
  end.

Fixpoint hooksLoop (i : nat) (hooks : list ShutdownHook)
  (errStrs : list string) (p : Proc) : list string * Proc :=
  match hooks with
  | [] => (errStrs, p)
  | f :: rest =>
      let '(errStrs', p') := hookIter i f errStrs p in
      hooksLoop (S i) rest errStrs' p'
  end.

(** The tail of [RunHooks], after the loop. *)
Definition hooksResult (errStrs : list string) : error :=
  if negb (length errStrs =? 0) then Some (strings_Join errStrs newline)
  else None.

Definition RunHooks (w : option Watcher) : Go error :=
  match w with
  | None => ret (Some "RunHooks: receiver is nil")
  | Some w =>
      fun p =>
        let '(errStrs, p') := hooksLoop 0 (shutdownHooks w) [] p in
        ret (hooksResult errStrs) p'
  end.

(** *** OnStop

    The forked goroutine sends on [waitChan] once [w.connsWG.Wait()] has
    returned; [time.After] delivers once the timer set from [w.timeoutMS]
    has fired. The [select] takes the case whose channel delivers first:
    that is [r]. Both cases call [RunHooks] and drop what it returns; the
    first returns nil, the second the timeout error. *)
Definition OnStop (w : option Watcher) (r : Race) : Go error :=
  match w with
  | None => ret (Some "OnStop: receiver is nil")
  | Some _ =>
      bind (fun p => (Returns tt, emit (EvSelect r) p)) (fun _ =>
      match r with
      | DrainedFirst =>
          bind (RunHooks w) (fun _ => ret None)
      | TimerFirst =>
          bind (RunHooks w) (fun _ => ret (Some "OnStop: shutdown timed out"))
      end)
  end.

(** *** SigHandle *)
Definition terminates (sig : Signal) : bool :=
  (sig =? SIGTERM)%Z || (sig =? SIGQUIT)%Z || (sig =? SIGHUP)%Z.

(** The body of [for sig := range sigs]. The signal channel is the list of
    notifications received until it is closed; each notification comes
    with the way the race of [OnStop] resolves if it is handled by a call
    of [OnStop]. *)
Fixpoint sigLoop (w : Watcher) (sigs : list (Signal * Race)) : Go unit :=
  match sigs with
  | [] => ret tt
  | (sig, r) :: rest =>
      if terminates sig then
        bind (OnStop (Some w) r) (fun stopErr =>
        bind (match stopErr with
              | Some _ => send 1
              | None => ret tt
              end) (fun _ =>
        bind (send 0) (fun _ =>
        sigLoop w rest)))
      else if (sig =? SIGINT)%Z then
        panic "panic exit"
      else
        sigLoop w rest
  end.

Definition SigHandle (w : option Watcher) (sigs : list (Signal * Race)) : Go unit :=
  match w with
  | None => panic "SigHandler: Watcher is nil"
  | Some w => sigLoop w sigs
  end.

End Shutdown.

Arguments ShutdownHook : clear implicits.
Arguments Watcher : clear implicits.
Arguments Proc : clear implicits.
Arguments Go : clear implicits.


(** ** Several invocations of [OnStop] in flight

    [OnStop] takes no lock and sets no flag, so goroutines that call it on
    the same [Watcher] run side by side. Each invocation is a goroutine that
    advances in steps: the [select] resolves, then one hook is called per
    step (the same loop body [hookIter] as above), then it returns. A
    schedule says which goroutine takes the next step; nothing in the code
    restricts it. *)
Section InFlight.
Context {World : Type}.

(** Where an invocation of [OnStop] (on a non-nil receiver) stands. *)
Inductive Pc : Type :=
| AtSelect (r : Race)
    (* blocked in the select, which resolves as r *)
| InHooks (r : Race) (i : nat) (errStrs : list string)
    (* in the loop of RunHooks, about to call shutdownHooks[i] *)
| Returned (e : error).

(** What the goroutines share: the world of the hooks, and the trace, each
    event marked with the goroutine it belongs to. *)
Record Shared : Type := mkShared {
  sworld : World;
  strace : list (nat * Event)
}.

(** What [OnStop] returns once the hooks have run. *)
Definition stopErr (r : Race) : error :=
  match r with
  | DrainedFirst => None
  | TimerFirst => Some "OnStop: shutdown timed out"
  end.

(** One step of goroutine [g]. *)
Definition stepOnStop (w : Watcher World) (g : nat) (pc : Pc) (sh : Shared)
  : Pc * Shared :=
  match pc with
  | AtSelect r =>
      (InHooks r 0 [],
       {| sworld := sworld sh; strace := strace sh ++ [(g, EvSelect r)] |})
  | InHooks r i errStrs =>
      match shutdownHooks w !! i with
      | Some f =>
          let '(errStrs', p) :=
            hookIter i f errStrs {| world := sworld sh; trace := [] |} in
          (InHooks r (S i) errStrs',
           {| sworld := world p;
              strace := strace sh ++ ((fun ev => (g, ev)) <$> trace p) |})
      | None => (Returned (stopErr r), sh)
      end
  | Returned e => (Returned e, sh)
  end.

(** The goroutine [g] of the pool takes a step (no such goroutine: nothing
    happens). *)
Definition schedStep (w : Watcher World) (cfg : list Pc * Shared) (g : nat)
  : list Pc * Shared :=
  match cfg.1 !! g with
  | Some pc =>
      let '(pc', sh') := stepOnStop w g pc cfg.2 in
      (<[g := pc']> cfg.1, sh')
  | None => cfg
  end.

Definition runSched (w : Watcher World) (sched : list nat)
  (cfg : list Pc * Shared) : list Pc * Shared :=
  foldl (schedStep w) cfg sched.

(** The pool at the moment the invocations are all blocked in their
    [select]. *)
Definition inFlight (races : list Race) : list Pc := AtSelect <$> races.

End InFlight.

Arguments Shared : clear implicits.

(** ** Reading traces *)

(** The hook indices called in a trace, in order. *)
Definition hookIndex (ev : Event) : option nat :=
  match ev with
  | EvHook i _ => Some i
  | _ => None
  end.

Definition callsIn (tr : list Event) : list nat := omap hookIndex tr.

(** The exit codes sent in a trace, in order. *)
Definition exitCode (ev : Event) : option Z :=
  match ev with
  | EvExit c => Some c
  | _ => None
  end.

Definition exitCodes (tr : list Event) : list Z := omap exitCode tr.

(** The number of times [OnStop] reached its [select] in a trace. *)
Definition isSelect (ev : Event) : bool :=
  match ev with
  | EvSelect _ => true
  | _ => false
  end.

Definition stopsIn (tr : list Event) : nat := length (filter (fun ev => isSelect ev = true) tr).

(** The events of goroutine [g] in a shared trace. *)
Definition ofGoroutine (g : nat) (tr : list (nat * Event)) : list Event :=
  omap (fun '(g', ev) => if decide (g' = g) then Some ev else None) tr.





(** What the invocation of goroutine [g] has done so far, read off the place
    [pc] where it stands: [evs] are its own events, [r] the way its select
    resolves, [n] the number of hooks of the watcher. Past the select it has
    logged the select and then the hooks [0 .. i-1], each once, in order. *)
Definition ownEvents (n : nat) (r : Race) (pc : Pc) (evs : list Event) : Prop :=
  match pc with
  | AtSelect r' => r' = r ∧ evs = []
  | InHooks r' i _ =>
      r' = r ∧ i ≤ n ∧
      ∃ tr, evs = EvSelect r :: tr ∧ callsIn tr = seq 0 i ∧ length tr = i
  | Returned e =>
      e = stopErr r ∧
      ∃ tr, evs = EvSelect r :: tr ∧ callsIn tr = seq 0 n ∧ length tr = n
  end.

(** Every invocation of the pool is where its own events say. *)
Definition poolInvariant {World : Type} (n : nat) (races : list Race)
  (cfg : list Pc * Shared World) : Prop :=
  ∀ g r, races !! g = Some r →
    ∃ pc, cfg.1 !! g = Some pc ∧ ownEvents n r pc (ofGoroutine g (strace cfg.2)).

(** ** Reference descriptions used in the statements *)
Section Reference.
Context {World : Type}.

(** What each hook returns when the hooks are called once each, in the
    order of the list, and the world they leave. *)
Fixpoint hookOutcomes (hooks : list (ShutdownHook World)) (s : World)
  : list error * World :=
  match hooks with
  | [] => ([], s)
  | f :: rest =>
      let '(e, s1) := f s in
      let '(es, s2) := hookOutcomes rest s1 in
      (e :: es, s2)
  end.

(** The failure texts among the outcomes, in order. *)
Definition failures (es : list error) : list string := omap id es.

End Reference.

(** The line [RunHooks] keeps for a failing hook. *)
Definition hookLine (m : string) : string := "shutdown hook err: " +:+ m.

(** Lifecycle events as the tracker counts them. *)
Definition isOpened (st : ConnState) : bool :=
  match st with
  | StateNew => true
  | _ => false
  end.

Definition isClosed (st : ConnState) : bool :=
  match st with
  | StateClosed | StateHijacked => true
  | _ => false
  end.

Fixpoint countIf (f : ConnState -> bool) (events : list ConnState) : Z :=
  match events with
  | [] => 0
  | ev :: rest => ((if f ev then 1 else 0) + countIf f rest)%Z
  end.

Definition opened (events : list ConnState) : Z := countIf isOpened events.
Definition closed (events : list ConnState) : Z := countIf isClosed events.

(** A sequence is well formed when every closed/abandoned event is paired
    with an earlier opened one: no prefix closes more than it opened. *)
Fixpoint wellFormedFrom (n : Z) (events : list ConnState) : bool :=
  match events with
  | [] => true
  | ev :: rest =>
      if isClosed ev then (0 <? n)%Z && wellFormedFrom (n - 1) rest
      else if isOpened ev then wellFormedFrom (n + 1) rest
      else wellFormedFrom n rest
  end.

Definition wellFormed (events : list ConnState) : bool := wellFormedFrom 0 events.


(** ** Sample watchers

    Hooks over a world that is a log of what the hooks did, as the test
    suite's [sampleShutdownHook] prints a line and returns nil. *)
Module Sample.
Definition okHook (name : string) : ShutdownHook (list string) :=
  fun log => (None, log ++ [name]).

Definition failingHook (name msg : string) : ShutdownHook (list string) :=
  fun log => (Some msg, log ++ [name]).

Definition start : Proc (list string) := {| world := []; trace := [] |}.

(** [NewWatcher(3000, hooks...)], then the given lifecycle events. *)
Definition watcherAfter (hooks : list (ShutdownHook (list string)))
  (events : list ConnState) : option (Watcher (list string)) :=
  match NewWatcher 3000 hooks with
  | (Some w, None) =>
      match observe w events with
      | Returns w' => Some w'
      | Panics _ => None
      end
  | _ => None
  end.

Definition cleanHooks : list (ShutdownHook (list string)) :=
  [okHook "flush"; okHook "close"].

Definition brokenHooks : list (ShutdownHook (list string)) :=
  [failingHook "flush" "disk full"; okHook "close"; failingHook "unlock" "no lock"].

(** The watcher [NewWatcher(3000, hooks...)] returns. *)
Definition fresh (hooks : list (ShutdownHook (list string))) : Watcher (list string) :=
  {| connsWG := 0%Z; shutdownHooks := hooks; timeoutMS := 3000%Z |}.

(** The same watcher with one connection opened and not closed. *)
Definition busy (hooks : list (ShutdownHook (list string))) : Watcher (list string) :=
  {| connsWG := 1%Z; shutdownHooks := hooks; timeoutMS := 3000%Z |}.

(** opened, opened, abandoned, closed. *)
Definition lifecycle : list ConnState :=
  [StateNew; StateNew; StateHijacked; StateClosed].


(** Two goroutines that take their steps in turn. *)
Definition inTurn : list nat := [0; 1; 0; 1; 0; 1; 0; 1].
End Sample.

(** ** Reading signal streams *)

(** The exit codes [SigHandle] sends while it handles one notification. *)
Definition codesFor (sr : Signal * Race) : list Z :=
  if terminates sr.1 then
    match sr.2 with
    | DrainedFirst => [0%Z]
    | TimerFirst => [1%Z; 0%Z]
    end
  else [].

(** No notification of the stream is SIGINT. *)
Definition noInterrupt (sigs : list (Signal * Race)) : bool :=
  forallb (fun sr => negb (sr.1 =? SIGINT)%Z) sigs.

(** The notifications [SigHandle] reacts to. *)
Definition handled (sr : Signal * Race) : bool :=
  terminates sr.1 || (sr.1 =? SIGINT)%Z.

(** The notifications that make [SigHandle] call [OnStop]. *)
Definition stopSignals (sigs : list (Signal * Race)) : list (Signal * Race) :=
  List.filter (fun sr => terminates sr.1) sigs.

(** How many steps an invocation of [OnStop] on a watcher with [n] hooks
    has behind it when it stands at [pc]: one for the select, one per hook
    called, one to return. *)
Definition stepsTaken (n : nat) (pc : Pc) : nat :=
  match pc with
  | AtSelect _ => 0
  | InHooks _ i _ => S i
  | Returned _ => n + 2
  end.

(** How many times goroutine [g] is scheduled. *)
Definition turnsOf (g : nat) (sched : list nat) : nat :=
  length (List.filter (Nat.eqb g) sched).

(** ** The race inside [OnStop]

    [OnStop] forks a goroutine that calls [w.connsWG.Wait()] and then sends
    on [waitChan], arms [time.After] with the watcher's timeout, and blocks
    in a [select] on the two channels. While it is blocked, the other
    goroutines of the daemon go on calling [RecordConnState].

    Instants and durations are nanoseconds, the unit of [time.Duration];
    instants count from the call of [OnStop]. Scheduling takes no time:
    the forked goroutine sends at the instant [Wait] returns. When both
    channels deliver at the same instant the [select] may take either case;
    the environment says which ([tie]). *)

(** Two's complement wrap-around of an [int64]. *)
Definition wrap64 (z : Z) : Z := ((z + 2 ^ 63) mod 2 ^ 64 - 2 ^ 63)%Z.

(** [time.Millisecond] *)
Definition Millisecond : Z := 1000000%Z.

(** [time.After(d)]: the instant at which its channel delivers, [d] after
    the call, at once when [d] is not positive. *)
Definition timeAfter (d : Z) : Z := Z.max 0 d.

Section Race.
Context {World : Type}.

(** [time.Duration(w.timeoutMS) * time.Millisecond], an [int64] product. *)
Definition timerDuration (w : Watcher World) : Z :=
  wrap64 (timeoutMS w * Millisecond).

(** The wait of the forked goroutine when the count is not zero at the
    call. [arrivals] are the calls of [RecordConnState] made by other
    goroutines while [OnStop] is blocked, each with its instant, in the
    order they happen; [timer] is the instant the timer delivers. An
    arrival later than the timer is not awaited: the timer wins. An arrival
    that brings the count to zero releases [Wait]: the drain-wait wins when
    that is before the timer, and [tie] decides at the very instant of the
    timer. A panic of [RecordConnState] in another goroutine ends the
    process. With no arrival left the timer delivers. *)
Fixpoint waitRace (w : Watcher World) (timer : Z) (tie : Race)
  (arrivals : list (Z * ConnState)) : outcome Race :=
  match arrivals with
  | [] => Returns TimerFirst
  | (t, st) :: rest =>
      if (timer <? t)%Z then Returns TimerFirst
      else
        match RecordConnState (Some w) st with
        | Panics msg => Panics msg
        | Returns w' =>
            if (connsWG w' =? 0)%Z then
              if (t <? timer)%Z then Returns DrainedFirst else Returns tie
            else waitRace w' timer tie rest
        end
  end.

(** The [select]. When the count is zero at the call [Wait] returns at
    once. *)
Definition selectRace (w : Watcher World) (tie : Race)
  (arrivals : list (Z * ConnState)) : outcome Race :=
  let timer := timeAfter (timerDuration w) in
  if (connsWG w =? 0)%Z then
    if (0 <? timer)%Z then Returns DrainedFirst else Returns tie
  else waitRace w timer tie arrivals.

(** [OnStop] with its race: the nil check, the [select], and then the case
    the [select] takes, which is [OnStop] above. *)
Definition OnStopTimed (w : option (Watcher World)) (tie : Race)
  (arrivals : list (Z * ConnState)) : Go World error :=
  match w with
  | None => OnStop None tie
  | Some w' =>
      fun p =>
        match selectRace w' tie arrivals with
        | Returns r => OnStop (Some w') r p
        | Panics msg => (Panics msg, p)
        end
  end.

(** The count is not zero at the call and after none of the events, and
    none of them panics. *)
Fixpoint staysBusy (w : Watcher World) (events : list ConnState) : bool :=
  negb (connsWG w =? 0)%Z
  && match events with
     | [] => true
     | st :: rest =>
         match RecordConnState (Some w) st with
         | Returns w' => staysBusy w' rest
         | Panics _ => false
         end
     end.

End Race.

(** Every arrival is earlier than the instant [t0]. *)
Definition allBefore (t0 : Z) (arrivals : list (Z * ConnState)) : bool :=
  forallb (fun a => (a.1 <? t0)%Z) arrivals.

(** The first arrival, if there is one, is later than the instant [t0]. *)
Definition startsAfter (t0 : Z) (arrivals : list (Z * ConnState)) : bool :=
  match arrivals with
  | [] => true
  | (t, _) :: _ => (t0 <? t)%Z
  end.

(** The largest timeout, in milliseconds, whose duration in nanoseconds
    fits in an [int64]. *)
Definition maxTimeoutMS : Z := 9223372036854%Z.

(** A watcher whose timeout is one millisecond more than that, with one
    connection open; the connection closes one millisecond into the call
    of [OnStop]. *)
Module Overflow.
Definition timeout : Z := 9223372036855%Z.

Definition fresh : Watcher (list string) :=
  {| connsWG := 0%Z; shutdownHooks := Sample.cleanHooks; timeoutMS := timeout |}.

Definition busy : Watcher (list string) :=
  {| connsWG := 1%Z; shutdownHooks := Sample.cleanHooks; timeoutMS := timeout |}.

Definition arrivals : list (Z * ConnState) := [(1000000%Z, StateClosed)].
End Overflow.

(** * Properties *)

(** ** Strings *)

Lemma string_length_app (a b : string) :
  String.length (a +:+ b) = String.length a + String.length b.
Proof.
  induction a as [|c a IH]; simpl; [done | by rewrite IH].
Qed.

(** [strings.Join] puts one separator between neighbours and none at the
    end: its length is the lengths of the elements plus one separator per
    element but the last. *)
Lemma strings_Join_length (elems : list string) (sep : string) :
  String.length (strings_Join elems sep) =
    sum_list (String.length <$> elems) + (length elems - 1) * String.length sep.
Proof.
  unfold strings_Join.
  induction elems as [|x [|y rest] IH].
  - done.
  - simpl. lia.
  - change (String.concat sep (x :: y :: rest))
      with (x +:+ sep +:+ String.concat sep (y :: rest)).
    rewrite !string_length_app, IH. simpl. lia.
Qed.

Section Properties.
Context {World : Type}.
Implicit Types (w : Watcher World) (p : Proc World) (hooks : list (ShutdownHook World)).

(** ** The hook loop *)

Lemma hookOutcomes_length hooks (s : World) :
  length (hookOutcomes hooks s).1 = length hooks.
Proof.
  revert s. induction hooks as [|f rest IH]; intros s; simpl; [done|].
  destruct (f s) as [e s1]. specialize (IH s1).
  destruct (hookOutcomes rest s1) as [es s2]. simpl in *. by rewrite IH.
Qed.

(** The loop, from any index and any slice collected so far. *)
Lemma hooksLoop_outcomes hooks (i : nat) (errStrs : list string) p :
  hooksLoop i hooks errStrs p =
    (errStrs ++ (hookLine <$> failures (hookOutcomes hooks (world p)).1),
     {| world := (hookOutcomes hooks (world p)).2;
        trace := trace p ++ imap (fun j => EvHook (i + j)) (hookOutcomes hooks (world p)).1 |}).
Proof.
  revert i errStrs p.
  induction hooks as [|f rest IH]; intros i errStrs [s tr]; simpl.
  - by rewrite !app_nil_r.
  - unfold hookIter. simpl. destruct (f s) as [e s1] eqn:Hf.
    destruct (hookOutcomes rest s1) as [es s2] eqn:Hrest.
    assert (Hshift : imap (fun j => EvHook (S i + j)) es
                     = imap ((fun j => EvHook (i + j)) ∘ S) es).
    { apply imap_ext. intros j x _. simpl. f_equal. lia. }
    destruct e as [m|]; rewrite IH; simpl; rewrite Hrest; simpl;
      rewrite Nat.add_0_r, <- !app_assoc; simpl in *; by rewrite Hshift.
Qed.

Lemma callsIn_imap_EvHook (i : nat) (es : list error) :
  callsIn (imap (fun j => EvHook (i + j)) es) = seq i (length es).
Proof.
  revert i. induction es as [|e es IH]; intros i; [done|].
  rewrite imap_cons. unfold callsIn in *. simpl. rewrite Nat.add_0_r. f_equal.
  rewrite <- (IH (S i)). f_equal. apply imap_ext. intros j x _. simpl. f_equal. lia.
Qed.

Lemma hooksResult_lines (ms : list string) :
  hooksResult (hookLine <$> ms) =
    match ms with
    | [] => None
    | _ :: _ => Some (strings_Join (hookLine <$> ms) newline)
    end.
Proof. by destruct ms. Qed.

(** [RunHooks] on a watcher, in one equation. *)
Lemma RunHooks_outcomes w p :
  RunHooks (Some w) p =
    (Returns (hooksResult (hookLine <$> failures (hookOutcomes (shutdownHooks w) (world p)).1)),
     {| world := (hookOutcomes (shutdownHooks w) (world p)).2;
        trace := trace p ++ imap EvHook (hookOutcomes (shutdownHooks w) (world p)).1 |}).
Proof.
  unfold RunHooks. rewrite hooksLoop_outcomes. simpl. done.
Qed.

(** [OnStop] on a watcher, in one equation. *)
Lemma OnStop_outcomes w (r : Race) p :
  OnStop (Some w) r p =
    (Returns (stopErr r),
     {| world := (hookOutcomes (shutdownHooks w) (world p)).2;
        trace := trace p ++ EvSelect r :: imap EvHook (hookOutcomes (shutdownHooks w) (world p)).1 |}).
Proof.
  unfold OnStop, bind. destruct r; rewrite RunHooks_outcomes; simpl;
    by rewrite <- app_assoc.
Qed.

End Properties.

(** ** Construction *)
Section Construction.
Context {World : Type}.

(** C6. [NewWatcher] with a negative timeout returns a nil watcher and the
    error "timeout must be a positive number"; with a timeout that is not
    negative it returns no error and a watcher whose pending count is zero,
    whose hooks are the given list in the given order, and whose timeout
    is the given one. *)
Theorem C6_NewWatcher (timeout : Z) (hooks : list (ShutdownHook World)) :
  ((timeout < 0)%Z →
     NewWatcher timeout hooks = (None, Some "timeout must be a positive number"))
  ∧ ((0 ≤ timeout)%Z →
     ∃ w, NewWatcher timeout hooks = (Some w, None)
          ∧ connsWG w = 0%Z
          ∧ shutdownHooks w = hooks
          ∧ timeoutMS w = timeout).
Proof.
  unfold NewWatcher. split; intros H.
  - destruct (Z.ltb_spec timeout 0); [done | lia].
  - destruct (Z.ltb_spec timeout 0); [lia |]. eexists. by repeat split.
Qed.

End Construction.

(** Witness of C6: [NewWatcher(-1)] of the test suite fails, and
    [NewWatcher(3000, hooks...)] gives a watcher with nothing pending. *)
Lemma C6_NewWatcher_witness :
  NewWatcher (-1) Sample.cleanHooks = (None, Some "timeout must be a positive number")
  ∧ ∃ w, NewWatcher 3000 Sample.cleanHooks = (Some w, None)
         ∧ connsWG w = 0%Z
         ∧ shutdownHooks w = Sample.cleanHooks
         ∧ timeoutMS w = 3000%Z.
Proof.
  split.
  - apply (proj1 (C6_NewWatcher (-1) Sample.cleanHooks)). lia.
  - apply (proj2 (C6_NewWatcher 3000 Sample.cleanHooks)). lia.
Defined.

(** ** The connection tracker *)
Section Tracker.
Context {World : Type}.
Implicit Types (w : Watcher World).
Local Open Scope Z_scope.

Lemma RecordConnState_opened w :
  0 ≤ connsWG w →
  RecordConnState (Some w) StateNew = Returns (setWG w (connsWG w + 1)).
Proof.
  intros H. simpl. unfold WaitGroup.Add.
  destruct (Z.ltb_spec (connsWG w + 1) 0); [lia | done].
Qed.

Lemma RecordConnState_closed w (st : ConnState) :
  isClosed st = true → 0 < connsWG w →
  RecordConnState (Some w) st = Returns (setWG w (connsWG w - 1)).
Proof.
  intros Hst H.
  destruct st; try discriminate; simpl; unfold WaitGroup.Done, WaitGroup.Add;
    (destruct (Z.ltb_spec (connsWG w + -1) 0); [lia |]);
    by replace (connsWG w + -1) with (connsWG w - 1) by lia.
Qed.

Lemma RecordConnState_closed_at_zero w (st : ConnState) :
  isClosed st = true → connsWG w = 0 →
  RecordConnState (Some w) st = Panics "sync: negative WaitGroup counter".
Proof.
  intros Hst H.
  destruct st; try discriminate; simpl; unfold WaitGroup.Done, WaitGroup.Add;
    by rewrite H.
Qed.

Lemma RecordConnState_other w (st : ConnState) :
  isOpened st = false → isClosed st = false →
  RecordConnState (Some w) st = Returns w.
Proof. by destruct st. Qed.

(** A closed/abandoned event never leaves a count other than one less. *)
Lemma RecordConnState_closed_returns w w' (st : ConnState) :
  isClosed st = true →
  RecordConnState (Some w) st = Returns w' →
  connsWG w' = connsWG w - 1 ∧ 0 ≤ connsWG w'.
Proof.
  intros Hst.
  destruct st; try discriminate; simpl; unfold WaitGroup.Done, WaitGroup.Add;
    (destruct (Z.ltb_spec (connsWG w + -1) 0); [done |]);
    intros [= <-]; simpl; lia.
Qed.

(** Prefixes of a well-formed sequence are well formed. *)
Lemma wellFormedFrom_take (n : Z) (events : list ConnState) (k : nat) :
  wellFormedFrom n events = true → wellFormedFrom n (take k events) = true.
Proof.
  revert n k. induction events as [|ev rest IH]; intros n [|k]; simpl; try done.
  destruct (isClosed ev).
  - intros [H1 H2]%andb_true_iff. rewrite H1. simpl. by apply IH.
  - destruct (isOpened ev); apply IH.
Qed.

(** [wellFormedFrom] says what its comment says: started with [n]
    pending, no prefix drives the count below zero. *)
Lemma wellFormedFrom_prefixes (n : Z) (events : list ConnState) :
  0 ≤ n →
  wellFormedFrom n events = true ↔
  ∀ k : nat, 0 ≤ n + opened (take k events) - closed (take k events).
Proof.
  revert n. unfold opened, closed.
  induction events as [|ev rest IH]; intros n Hn; simpl.
  - split; [|done]. intros _ k. rewrite take_nil. simpl. lia.
  - split.
    + intros Hwf [|k]; simpl; [lia|].
      destruct ev; simpl in *;
        try (apply andb_true_iff in Hwf as [H1%Z.ltb_lt H2]);
        first [ apply (IH (n - 1)) with (k := k) in H2; lia
              | apply (IH (n + 1)) with (k := k) in Hwf; lia
              | apply (IH n) with (k := k) in Hwf; lia ].
    + intros Hall.
      assert (H1 := Hall 1%nat). simpl in H1.
      destruct ev; simpl in *;
        try (apply andb_true_iff; split; [apply Z.ltb_lt; lia|]);
        first [ apply (IH (n - 1)); [lia|]; intros k; specialize (Hall (S k)); simpl in Hall; lia
              | apply (IH (n + 1)); [lia|]; intros k; specialize (Hall (S k)); simpl in Hall; lia
              | apply (IH n); [lia|]; intros k; specialize (Hall (S k)); simpl in Hall; lia ].
Qed.

(** The tracker over a well-formed sequence, from any count. *)
Lemma observe_wellFormed (events : list ConnState) w :
  0 ≤ connsWG w →
  wellFormedFrom (connsWG w) events = true →
  ∃ w', observe w events = Returns w'
        ∧ connsWG w' = connsWG w + opened events - closed events
        ∧ 0 ≤ connsWG w'
        ∧ shutdownHooks w' = shutdownHooks w
        ∧ timeoutMS w' = timeoutMS w.
Proof.
  revert w. unfold opened, closed.
  induction events as [|ev rest IH]; intros w Hn Hwf.
  - exists w. simpl. repeat split; try done; lia.
  - simpl in Hwf. cbn [observe].
    destruct (isClosed ev) eqn:Hc; [|destruct (isOpened ev) eqn:Ho].
    + apply andb_true_iff in Hwf as [Hpos%Z.ltb_lt Hwf].
      rewrite (RecordConnState_closed w ev Hc Hpos).
      destruct (IH (setWG w (connsWG w - 1))) as (w' & -> & Hc' & ? & ? & ?);
        [simpl; lia | done |].
      exists w'. simpl in *. rewrite Hc, Hc'.
      assert (isOpened ev = false) as -> by (by destruct ev).
      repeat split; try done; lia.
    + assert (ev = StateNew) as -> by (by destruct ev).
      rewrite (RecordConnState_opened w Hn).
      destruct (IH (setWG w (connsWG w + 1))) as (w' & -> & Hc' & ? & ? & ?);
        [simpl; lia | done |].
      exists w'. simpl in *. rewrite Hc'. repeat split; try done; lia.
    + rewrite (RecordConnState_other w ev Ho Hc).
      destruct (IH w) as (w' & -> & Hc' & ? & ? & ?); [done..|].
      exists w'. simpl. rewrite Hc, Ho, Hc'. repeat split; try done; lia.
Qed.

(** C7. After any prefix of a well-formed sequence of lifecycle events
    observed by a freshly constructed watcher, [RecordConnState] has
    returned every time, the pending count is the number of opened events
    minus the number of closed/abandoned events and it is not negative;
    there, an opened event adds one to the count, a closed/abandoned event
    (one that has an open connection to close) takes one off, and any
    other event leaves the watcher as it is. *)
Theorem C7_pending_count (timeout : Z) (hooks : list (ShutdownHook World))
    (w0 : Watcher World) (events : list ConnState) (k : nat)
    (Hnew : NewWatcher timeout hooks = (Some w0, None))
    (Hwf : wellFormed events = true) :
  ∃ w, observe w0 (take k events) = Returns w
       ∧ connsWG w = opened (take k events) - closed (take k events)
       ∧ 0 ≤ connsWG w
       ∧ RecordConnState (Some w) StateNew = Returns (setWG w (connsWG w + 1))
       ∧ (∀ st, isClosed st = true → 0 < connsWG w →
            RecordConnState (Some w) st = Returns (setWG w (connsWG w - 1)))
       ∧ (∀ st, isOpened st = false → isClosed st = false →
            RecordConnState (Some w) st = Returns w).
Proof.
  assert (connsWG w0 = 0) as H0.
  { unfold NewWatcher in Hnew. destruct (timeout <? 0); [done|].
    by injection Hnew as <-. }
  destruct (observe_wellFormed (take k events) w0) as (w & Hobs & Hc & Hpos & _).
  { lia. }
  { rewrite H0. by apply wellFormedFrom_take. }
  exists w. split; [done|]. split; [lia|]. split; [done|].
  split; [by apply RecordConnState_opened|]. split.
  - intros st Hst Hlt. by apply RecordConnState_closed.
  - intros st Ho Hcl. by apply RecordConnState_other.
Qed.

(** C8. A closed/abandoned event observed when the pending count is zero
    makes [RecordConnState] panic (the panic of [sync.WaitGroup] on a
    negative counter), and the run of the tracker ends there; the count is
    never clamped: whenever [RecordConnState] returns from such an event
    the count is exactly one less than before. *)
Theorem C8_close_at_zero_panics w (st : ConnState)
    (Hst : isClosed st = true) :
  (connsWG w = 0 →
     RecordConnState (Some w) st = Panics "sync: negative WaitGroup counter"
     ∧ ∀ rest, observe w (st :: rest) = Panics "sync: negative WaitGroup counter")
  ∧ (∀ w', RecordConnState (Some w) st = Returns w' →
       connsWG w' = connsWG w - 1 ∧ connsWG w ≠ 0).
Proof.
  split.
  - intros H0. split; [by apply RecordConnState_closed_at_zero|].
    intros rest. cbn [observe]. by rewrite RecordConnState_closed_at_zero.
  - intros w' Hret. split; [by eapply RecordConnState_closed_returns|].
    intros H0. by rewrite (RecordConnState_closed_at_zero w st Hst H0) in Hret.
Qed.

End Tracker.

(** Witness of C7: a fresh watcher that observes opened, opened, abandoned
    (the first three events of a well-formed sequence) has one connection
    pending. *)
Lemma C7_pending_count_witness :
  NewWatcher 3000 Sample.cleanHooks = (Some (Sample.fresh Sample.cleanHooks), None)
  ∧ wellFormed Sample.lifecycle = true
  ∧ ∃ w, observe (Sample.fresh Sample.cleanHooks) (take 3 Sample.lifecycle) = Returns w
         ∧ connsWG w = (opened (take 3 Sample.lifecycle) - closed (take 3 Sample.lifecycle))%Z
         ∧ (0 ≤ connsWG w)%Z
         ∧ RecordConnState (Some w) StateNew = Returns (setWG w (connsWG w + 1)%Z)
         ∧ (∀ st, isClosed st = true → (0 < connsWG w)%Z →
              RecordConnState (Some w) st = Returns (setWG w (connsWG w - 1)%Z))
         ∧ (∀ st, isOpened st = false → isClosed st = false →
              RecordConnState (Some w) st = Returns w).
Proof.
  split; [reflexivity|]. split; [reflexivity|].
  apply (C7_pending_count 3000 Sample.cleanHooks (Sample.fresh Sample.cleanHooks)
           Sample.lifecycle 3); reflexivity.
Defined.

(** Witness of C8: a fresh watcher has nothing pending, so a closed event
    makes it panic. *)
Lemma C8_close_at_zero_panics_witness :
  isClosed StateClosed = true
  ∧ (connsWG (Sample.fresh Sample.cleanHooks) = 0%Z →
       RecordConnState (Some (Sample.fresh Sample.cleanHooks)) StateClosed
         = Panics "sync: negative WaitGroup counter"
       ∧ ∀ rest, observe (Sample.fresh Sample.cleanHooks) (StateClosed :: rest)
                   = Panics "sync: negative WaitGroup counter")
  ∧ (∀ w', RecordConnState (Some (Sample.fresh Sample.cleanHooks)) StateClosed = Returns w' →
       connsWG w' = (connsWG (Sample.fresh Sample.cleanHooks) - 1)%Z
       ∧ connsWG (Sample.fresh Sample.cleanHooks) ≠ 0%Z).
Proof.
  split; [reflexivity|].
  apply (C8_close_at_zero_panics (Sample.fresh Sample.cleanHooks) StateClosed).
  reflexivity.
Defined.

(** ** The hook runner *)

Lemma string_app_nil_r (a : string) : a +:+ "" = a.
Proof.
  induction a as [|c a IH]; [done|].
  change (String c (a +:+ "") = String c a). by rewrite IH.
Qed.

Lemma string_app_assoc (a b c : string) : (a +:+ b) +:+ c = a +:+ b +:+ c.
Proof.
  induction a as [|ch a IH]; [done|].
  change (String ch ((a +:+ b) +:+ c) = String ch (a +:+ b +:+ c)). by rewrite IH.
Qed.

(** [strings.Join] spelled out: the first element, then every other element
    with one separator in front of it, and nothing after the last. *)
Lemma strings_Join_cons (x : string) (rest : list string) (sep : string) :
  strings_Join (x :: rest) sep
    = x +:+ strings_Join ((fun y => sep +:+ y) <$> rest) "".
Proof.
  unfold strings_Join. revert x.
  induction rest as [|y rest IH]; intros x.
  - simpl. by rewrite string_app_nil_r.
  - change (String.concat sep (x :: y :: rest))
      with (x +:+ sep +:+ String.concat sep (y :: rest)).
    rewrite IH. f_equal.
    destruct rest as [|z rest].
    + simpl. by rewrite !string_app_nil_r.
    + rewrite !fmap_cons.
      change (String.concat "" ((sep +:+ y) :: (sep +:+ z) :: ((fun y0 => sep +:+ y0) <$> rest)))
        with ((sep +:+ y) +:+ "" +:+
                String.concat "" ((sep +:+ z) :: ((fun y0 => sep +:+ y0) <$> rest))).
      rewrite string_app_assoc. done.
Qed.


Section HookRunner.
Context {World : Type}.
Implicit Types (w : Watcher World) (p : Proc World).


(** C10. When at least one hook fails, the message of the error
    [RunHooks] returns is made of one line per failing hook, in order;
    each line is "shutdown hook err: " followed by that hook's message;
    the lines are joined by one newline character each, with nothing
    after the last line. *)
Theorem C10_RunHooks_message w p (es : list error) (s' : World)
    (m0 : string) (ms : list string)
    (Hrun : hookOutcomes (shutdownHooks w) (world p) = (es, s'))
    (Hfail : failures es = m0 :: ms) :
  ∃ msg,
    (RunHooks (Some w) p).1 = Returns (Some msg)
    ∧ msg = strings_Join ((fun m => "shutdown hook err: " +:+ m) <$> (m0 :: ms)) newline
    ∧ msg = ("shutdown hook err: " +:+ m0)
              +:+ strings_Join
                    ((fun m => newline +:+ "shutdown hook err: " +:+ m) <$> ms) ""
    ∧ String.length newline = 1
    ∧ String.length msg
        = sum_list ((fun m => String.length "shutdown hook err: " + String.length m)
                      <$> (m0 :: ms))
          + length ms.
Proof.
  rewrite RunHooks_outcomes, Hrun. cbn [fst snd]. rewrite Hfail, hooksResult_lines.
  eexists. split; [done|]. split; [done|]. split.
  { rewrite fmap_cons, strings_Join_cons. f_equal. f_equal.
    by rewrite <- list_fmap_compose. }
  split; [done|].
  rewrite strings_Join_length, <- list_fmap_compose, length_fmap.
  assert (Hlines : (String.length ∘ hookLine) <$> (m0 :: ms)
                   = (fun m => String.length "shutdown hook err: " + String.length m)
                       <$> (m0 :: ms)).
  { apply list_fmap_ext. intros i m _. unfold hookLine, compose.
    by rewrite string_length_app. }
  unfold hookLine in Hlines. unfold hookLine. rewrite Hlines.
  change (length (m0 :: ms)) with (S (length ms)).
  change (String.length newline) with 1. lia.
Qed.

End HookRunner.

(** Witness of C10: of three hooks the first and the last fail; the message
    has their two lines. *)
Lemma C10_RunHooks_message_witness :
  hookOutcomes (shutdownHooks (Sample.fresh Sample.brokenHooks)) (world Sample.start)
    = ([Some "disk full"; None; Some "no lock"], ["flush"; "close"; "unlock"])
  ∧ failures [Some "disk full"; None; Some "no lock"] = ["disk full"; "no lock"]
  ∧ ∃ msg,
      (RunHooks (Some (Sample.fresh Sample.brokenHooks)) Sample.start).1 = Returns (Some msg)
      ∧ msg = strings_Join ((fun m => "shutdown hook err: " +:+ m) <$> ["disk full"; "no lock"]) newline
      ∧ msg = ("shutdown hook err: " +:+ "disk full")
                +:+ strings_Join
                      ((fun m => newline +:+ "shutdown hook err: " +:+ m) <$> ["no lock"]) ""
      ∧ String.length newline = 1
      ∧ String.length msg
          = sum_list ((fun m => String.length "shutdown hook err: " + String.length m)
                        <$> ["disk full"; "no lock"])
            + length ["no lock"].
Proof.
  split; [reflexivity|]. split; [reflexivity|].
  apply (C10_RunHooks_message (Sample.fresh Sample.brokenHooks) Sample.start
           [Some "disk full"; None; Some "no lock"] ["flush"; "close"; "unlock"]
           "disk full" ["no lock"]); reflexivity.
Defined.

(** ** Shutdown *)
Section Stop.
Context {World : Type}.
Implicit Types (w : Watcher World) (p : Proc World).

(** Whichever case the select takes, what a call of [OnStop] on a watcher
    did is: the select resolved, and after that every hook was called once,
    in order. It returns nil in the drain-wait case and the error "OnStop:
    shutdown timed out" in the timer case. *)
Lemma OnStop_hooks_once_after_race w (r : Race) p :
  ∃ es s' p',
    hookOutcomes (shutdownHooks w) (world p) = (es, s')
    ∧ OnStop (Some w) r p =
        (Returns (match r with
                  | DrainedFirst => None
                  | TimerFirst => Some "OnStop: shutdown timed out"
                  end), p')
    ∧ world p' = s'
    ∧ trace p' = trace p ++ EvSelect r :: imap EvHook es
    ∧ length es = length (shutdownHooks w)
    ∧ callsIn (imap EvHook es) = seq 0 (length (shutdownHooks w)).
Proof.
  pose proof (OnStop_outcomes w r p) as Hstop.
  pose proof (hookOutcomes_length (shutdownHooks w) (world p)) as Hlen.
  destruct (hookOutcomes (shutdownHooks w) (world p)) as [es s'] eqn:Hout.
  simpl in *. eexists es, s', _. split; [done|].
  split; [exact Hstop|]. split; [done|]. split; [done|]. split; [done|].
  rewrite <- Hlen. apply (callsIn_imap_EvHook 0).
Qed.

(** C2, as the code has it. What [OnStop] returns on a watcher tells how
    the race resolved and nothing else: nil when the drain-wait delivered
    first, the error "OnStop: shutdown timed out" when the timer did. The
    result of [RunHooks] is dropped, so two watchers, whatever their hooks
    return, get the same answer from [OnStop] for the same race. *)
Theorem C2_OnStop_reports_timeout_only w w' (r : Race) p p' :
  (OnStop (Some w) r p).1 =
    Returns (match r with
             | DrainedFirst => None
             | TimerFirst => Some "OnStop: shutdown timed out"
             end)
  ∧ (OnStop (Some w) r p).1 = (OnStop (Some w') r p').1.
Proof.
  rewrite !OnStop_outcomes. by destruct r.
Qed.

(** C3, as the code has it. On a nil watcher [RunHooks] and [OnStop]
    return an error that says the receiver is nil and touch nothing;
    [RecordConnState] and [SigHandle] panic. *)
Theorem C3_nil_receiver (st : ConnState) (r : Race)
    (sigs : list (Signal * Race)) p :
  RunHooks None p = (Returns (Some "RunHooks: receiver is nil"), p)
  ∧ OnStop None r p = (Returns (Some "OnStop: receiver is nil"), p)
  ∧ @RecordConnState World None st = Panics "RecordConnState: receiver is nil"
  ∧ SigHandle None sigs p = (Panics "SigHandler: Watcher is nil", p).
Proof. done. Qed.

(** ** The signal loop, one notification at a time *)

Lemma sigLoop_terminating w (sig : Signal) (r : Race)
    (rest : list (Signal * Race)) p :
  terminates sig = true →
  sigLoop w ((sig, r) :: rest) p =
    sigLoop w rest
      {| world := (hookOutcomes (shutdownHooks w) (world p)).2;
         trace := (trace p ++ EvSelect r
                     :: imap EvHook (hookOutcomes (shutdownHooks w) (world p)).1)
                  ++ match r with
                     | DrainedFirst => [EvExit 0]
                     | TimerFirst => [EvExit 1; EvExit 0]
                     end |}.
Proof.
  intros Hsig. cbn [sigLoop]. rewrite Hsig. unfold bind at 1.
  rewrite OnStop_outcomes.
  destruct r; unfold stopErr, bind, send, ret, emit; cbn [world trace];
    by rewrite <- ?app_assoc.
Qed.

Lemma sigLoop_interrupt w (r : Race) (rest : list (Signal * Race)) p :
  sigLoop w ((SIGINT, r) :: rest) p = (Panics "panic exit", p).
Proof. done. Qed.

Lemma sigLoop_ignored w (sig : Signal) (r : Race)
    (rest : list (Signal * Race)) p :
  terminates sig = false → sig ≠ SIGINT →
  sigLoop w ((sig, r) :: rest) p = sigLoop w rest p.
Proof.
  intros Hsig Hint. cbn [sigLoop]. rewrite Hsig.
  by destruct (Z.eqb_spec sig SIGINT).
Qed.

End Stop.

(** Counterexample to C2: with nothing pending and the drain-wait first,
    [OnStop] returns nil both for hooks that fail and for hooks that do not,
    although [RunHooks] tells them apart; the same when the timer is first. *)
Lemma C2_hook_failure_not_reported :
  (RunHooks (Some (Sample.fresh Sample.brokenHooks)) Sample.start).1
    = Returns (Some ("shutdown hook err: disk full" +:+ newline
                       +:+ "shutdown hook err: no lock"))
  ∧ (RunHooks (Some (Sample.fresh Sample.cleanHooks)) Sample.start).1 = Returns None
  ∧ (OnStop (Some (Sample.fresh Sample.brokenHooks)) DrainedFirst Sample.start).1
      = Returns None
  ∧ (OnStop (Some (Sample.fresh Sample.cleanHooks)) DrainedFirst Sample.start).1
      = Returns None
  ∧ (OnStop (Some (Sample.busy Sample.brokenHooks)) TimerFirst Sample.start).1
      = Returns (Some "OnStop: shutdown timed out")
  ∧ (OnStop (Some (Sample.busy Sample.cleanHooks)) TimerFirst Sample.start).1
      = Returns (Some "OnStop: shutdown timed out").
Proof. repeat split. Qed.

(** Counterexample to C3: on a nil watcher [RecordConnState] does not
    return at all, and neither does [SigHandle]: both panic. *)
Lemma C3_nil_RecordConnState_panics :
  @RecordConnState (list string) None StateNew
    = Panics "RecordConnState: receiver is nil"
  ∧ (¬ ∃ w', @RecordConnState (list string) None StateNew = Returns w')
  ∧ (SigHandle None [(SIGTERM, DrainedFirst)] Sample.start).1
      = Panics "SigHandler: Watcher is nil".
Proof.
  split; [reflexivity|]. split; [|reflexivity].
  intros [w' H]. discriminate H.
Qed.

(** C4 at its failing input: a watcher with one connection still open
    receives SIGTERM and the timer wins the race. [OnStop] is called once,
    the hooks run, and then two exit codes are sent: 1 and, after it, 0. *)
Lemma C4_timeout_sends_one_then_zero :
  SigHandle (Some (Sample.busy Sample.cleanHooks)) [(SIGTERM, TimerFirst)] Sample.start
    = (Returns tt,
       {| world := ["flush"; "close"];
          trace := [EvSelect TimerFirst; EvHook 0 None; EvHook 1 None;
                    EvExit 1; EvExit 0] |})
  ∧ exitCodes (trace (SigHandle (Some (Sample.busy Sample.cleanHooks))
                        [(SIGTERM, TimerFirst)] Sample.start).2) = [1; 0]%Z
  ∧ stopsIn (trace (SigHandle (Some (Sample.busy Sample.cleanHooks))
                      [(SIGTERM, TimerFirst)] Sample.start).2) = 1.
Proof. repeat split. Qed.

(** ** Invocations of [OnStop] in flight together *)

Lemma ofGoroutine_app (g : nat) (tr1 tr2 : list (nat * Event)) :
  ofGoroutine g (tr1 ++ tr2) = ofGoroutine g tr1 ++ ofGoroutine g tr2.
Proof. apply omap_app. Qed.

Lemma ofGoroutine_own (g : nat) (evs : list Event) :
  ofGoroutine g ((fun ev => (g, ev)) <$> evs) = evs.
Proof.
  induction evs as [|ev evs IH]; [done|].
  rewrite fmap_cons. unfold ofGoroutine in *. cbn [omap list_omap].
  destruct (decide (g = g)); [|done]. by rewrite IH.
Qed.

Lemma ofGoroutine_other (g g' : nat) (evs : list Event) :
  g' ≠ g → ofGoroutine g ((fun ev => (g', ev)) <$> evs) = [].
Proof.
  intros Hne. induction evs as [|ev evs IH]; [done|].
  rewrite fmap_cons. unfold ofGoroutine in *. cbn [omap list_omap].
  destruct (decide (g' = g)); [done|]. by rewrite IH.
Qed.

Lemma callsIn_snoc (tr : list Event) (i : nat) (e : error) :
  callsIn (tr ++ [EvHook i e]) = callsIn tr ++ [i].
Proof. unfold callsIn. by rewrite omap_app. Qed.

Section InFlightProperties.
Context {World : Type}.
Implicit Types (w : Watcher World) (sh : Shared World).

(** A step of goroutine [g] adds events of [g] only, and they keep its
    own record in line with the place it moves to. *)
Lemma stepOnStop_own w (g : nat) (pc : Pc) sh :
  ∃ evs,
    strace (stepOnStop w g pc sh).2 = strace sh ++ ((fun ev => (g, ev)) <$> evs)
    ∧ ∀ r evs0,
        ownEvents (length (shutdownHooks w)) r pc evs0 →
        ownEvents (length (shutdownHooks w)) r (stepOnStop w g pc sh).1 (evs0 ++ evs).
Proof.
  destruct pc as [r'|r' i errStrs|e]; cbn [stepOnStop].
  - exists [EvSelect r']. split; [done|].
    intros r evs0 [-> ->]. simpl. split; [done|]. split; [lia|]. by exists [].
  - destruct (shutdownHooks w !! i) as [f|] eqn:Hi.
    + unfold hookIter. cbn [world trace].
      destruct (f (sworld sh)) as [err s]. exists [EvHook i err].
      split; [by destruct err|].
      intros r evs0 (-> & Hle & tr & -> & Hcalls & Hlen).
      apply lookup_lt_Some in Hi.
      assert (ownEvents (length (shutdownHooks w)) r
                (InHooks r (S i) (match err with
                                  | Some m => errStrs ++ ["shutdown hook err: " +:+ m]
                                  | None => errStrs
                                  end))
                ((EvSelect r :: tr) ++ [EvHook i err])) as Hown.
      { split; [done|]. split; [lia|]. exists (tr ++ [EvHook i err]).
        split; [done|]. rewrite callsIn_snoc, Hcalls, length_app, Hlen, seq_S.
        split; [done | simpl; lia]. }
      by destruct err.
    + exists []. rewrite app_nil_r. split; [done|].
      intros r evs0 (-> & Hle & tr & -> & Hcalls & Hlen).
      apply lookup_ge_None in Hi.
      assert (i = length (shutdownHooks w)) as -> by lia.
      rewrite app_nil_r. split; [done|]. by exists tr.
  - exists []. rewrite app_nil_r. split; [done|].
    intros r evs0 Hown. by rewrite app_nil_r.
Qed.

(** Whoever takes the step, every invocation stays where its own events
    say. *)
Lemma schedStep_invariant w (races : list Race) (cfg : list Pc * Shared World)
    (g : nat) :
  poolInvariant (length (shutdownHooks w)) races cfg →
  poolInvariant (length (shutdownHooks w)) races (schedStep w cfg g).
Proof.
  intros Hinv. unfold schedStep.
  destruct (cfg.1 !! g) as [pc|] eqn:Hg; [|done].
  destruct (stepOnStop_own w g pc cfg.2) as (evs & Htrace & Hown).
  destruct (stepOnStop w g pc cfg.2) as [pc' sh'] eqn:Hstep.
  cbn [fst snd] in *.
  intros g' r Hr. destruct (Hinv g' r Hr) as (pc0 & Hpc0 & Hown0).
  cbn [fst snd]. rewrite Htrace, ofGoroutine_app.
  destruct (decide (g' = g)) as [->|Hne].
  - exists pc'. split.
    + apply list_lookup_insert_eq. by eapply lookup_lt_Some.
    + rewrite ofGoroutine_own. apply Hown. congruence.
  - exists pc0. split.
    + by rewrite list_lookup_insert_ne.
    + rewrite ofGoroutine_other, app_nil_r; [done | congruence].
Qed.

Lemma inFlight_invariant (n : nat) (races : list Race) (s : World) :
  poolInvariant n races (inFlight races, {| sworld := s; strace := [] |}).
Proof.
  intros g r Hr. exists (AtSelect r). split; [|done].
  unfold inFlight. cbn [fst]. by rewrite list_lookup_fmap, Hr.
Qed.

Lemma runSched_invariant w (races : list Race) (sched : list nat)
    (cfg : list Pc * Shared World) :
  poolInvariant (length (shutdownHooks w)) races cfg →
  poolInvariant (length (shutdownHooks w)) races (runSched w sched cfg).
Proof.
  revert cfg. unfold runSched.
  induction sched as [|g sched IH]; intros cfg Hinv; [done|].
  cbn [foldl]. apply IH. by apply schedStep_invariant.
Qed.


End InFlightProperties.



(** ** One invocation alone is [OnStop]

    The stepping of [stepOnStop] and the function [OnStop] are the same
    code: a goroutine that takes all its steps with nobody in between ends
    where [OnStop] ends. *)
Section Alone.
Context {World : Type}.
Implicit Types (w : Watcher World).

Lemma runSched_cons w (g : nat) (sched : list nat) (cfg : list Pc * Shared World) :
  runSched w (g :: sched) cfg = runSched w sched (schedStep w cfg g).
Proof. done. Qed.

Lemma runSched_app w (sched1 sched2 : list nat) (cfg : list Pc * Shared World) :
  runSched w (sched1 ++ sched2) cfg = runSched w sched2 (runSched w sched1 cfg).
Proof. apply foldl_app. Qed.

(** The only goroutine calls the hook it stands at. *)
Lemma alone_step_hook w (r : Race) (i : nat) (f : ShutdownHook World)
    (errStrs : list string) (s : World) (tr : list (nat * Event)) :
  shutdownHooks w !! i = Some f →
  schedStep w ([InHooks r i errStrs], {| sworld := s; strace := tr |}) 0
  = ([InHooks r (S i) (errStrs ++ (hookLine <$> failures [(f s).1]))],
     {| sworld := (f s).2; strace := tr ++ [(0, EvHook i (f s).1)] |}).
Proof.
  intros Hi. unfold schedStep. cbn [fst snd lookup list_lookup stepOnStop].
  rewrite Hi. unfold hookIter. cbn [world trace sworld strace].
  destruct (f s) as [[m|] s1]; cbn [fst snd]; [done|].
  by rewrite app_nil_r.
Qed.

Lemma alone_in_hooks w (r : Race) (rest pre : list (ShutdownHook World))
    (errStrs : list string) (s : World) (tr : list (nat * Event)) :
  shutdownHooks w = pre ++ rest →
  runSched w (replicate (length rest) 0)
    ([InHooks r (length pre) errStrs], {| sworld := s; strace := tr |})
  = ([InHooks r (length (shutdownHooks w))
        (errStrs ++ (hookLine <$> failures (hookOutcomes rest s).1))],
     {| sworld := (hookOutcomes rest s).2;
        strace := tr ++ ((fun ev => (0, ev))
                           <$> imap (fun j => EvHook (length pre + j))
                                 (hookOutcomes rest s).1) |}).
Proof.
  revert pre errStrs s tr.
  induction rest as [|f rest IH]; intros pre errStrs s tr Hw.
  - rewrite Hw. simpl. by rewrite !app_nil_r.
  - cbn [length replicate]. rewrite runSched_cons.
    rewrite (alone_step_hook w r (length pre) f)
      by (rewrite Hw; by apply list_lookup_middle).
    assert (Hw' : shutdownHooks w = (pre ++ [f]) ++ rest)
      by (by rewrite <- app_assoc).
    assert (Hlen : length (pre ++ [f]) = S (length pre))
      by (rewrite length_app; simpl; lia).
    specialize (IH (pre ++ [f])). rewrite Hlen in IH. rewrite IH by done.
    cbn [hookOutcomes]. destruct (f s) as [err s1]. cbn [fst snd].
    destruct (hookOutcomes rest s1) as [es s2]. cbn [fst snd].
    assert (Hshift : imap (fun j => EvHook (S (length pre) + j)) es
                     = imap ((fun j => EvHook (length pre + j)) ∘ S) es).
    { apply imap_ext. intros j x _. simpl. f_equal. lia. }
    rewrite imap_cons, fmap_cons, Nat.add_0_r, Hshift, <- !app_assoc.
    f_equal. f_equal. f_equal. by destruct err.
Qed.

Lemma alone_agrees_with_OnStop w (r : Race) (s : World) :
  ∃ e p,
    OnStop (Some w) r {| world := s; trace := [] |} = (Returns e, p)
    ∧ runSched w (0 :: replicate (length (shutdownHooks w)) 0 ++ [0])
        ([AtSelect r], {| sworld := s; strace := [] |})
      = ([Returned e],
         {| sworld := world p; strace := (fun ev => (0, ev)) <$> trace p |}).
Proof.
  rewrite OnStop_outcomes. eexists _, _. split; [done|].
  cbn [world trace app].
  rewrite runSched_cons, runSched_app.
  assert (schedStep w ([AtSelect r], {| sworld := s; strace := [] |}) 0
          = ([InHooks r (length (@nil (ShutdownHook World))) []],
             {| sworld := s; strace := [(0, EvSelect r)] |})) as -> by done.
  rewrite (alone_in_hooks w r (shutdownHooks w) [] [] s [(0, EvSelect r)] eq_refl).
  rewrite runSched_cons. unfold schedStep.
  cbn [fst snd lookup list_lookup stepOnStop].
  assert (shutdownHooks w !! length (shutdownHooks w) = None) as ->
    by (by apply lookup_ge_None).
  done.
Qed.

End Alone.

(** * Further properties *)

(** ** The connection tracker on arbitrary sequences *)
Section TrackerRuns.
Context {World : Type}.
Implicit Types (w : Watcher World).
Local Open Scope Z_scope.

Lemma watcher_eq w w' :
  connsWG w' = connsWG w → shutdownHooks w' = shutdownHooks w →
  timeoutMS w' = timeoutMS w → w' = w.
Proof. destruct w, w'. simpl. by intros -> -> ->. Qed.

(** A sequence that is not well formed makes the tracker panic. *)
Lemma observe_not_wellFormed (events : list ConnState) w :
  0 ≤ connsWG w →
  wellFormedFrom (connsWG w) events = false →
  observe w events = Panics "sync: negative WaitGroup counter".
Proof.
  revert w. induction events as [|ev rest IH]; intros w Hn Hwf; [done|].
  simpl in Hwf. cbn [observe].
  destruct (isClosed ev) eqn:Hc; [|destruct (isOpened ev) eqn:Ho].
  - destruct (Z.ltb_spec 0 (connsWG w)) as [Hpos|Hzero].
    + rewrite (RecordConnState_closed w ev Hc Hpos).
      apply IH; simpl; [lia | done].
    + by rewrite (RecordConnState_closed_at_zero w ev Hc) by lia.
  - assert (ev = StateNew) as -> by (by destruct ev).
    rewrite (RecordConnState_opened w Hn). apply IH; simpl; [lia | done].
  - rewrite (RecordConnState_other w ev Ho Hc). by apply IH.
Qed.

(** A sequence that is not well formed has a prefix that closes more
    connections than were pending and opened. *)
Lemma wellFormedFrom_false_prefix (n : Z) (events : list ConnState) :
  0 ≤ n →
  wellFormedFrom n events = false →
  ∃ k : nat, n + opened (take k events) - closed (take k events) < 0.
Proof.
  revert n. unfold opened, closed.
  induction events as [|ev rest IH]; intros n Hn Hwf; [done|].
  simpl in Hwf.
  destruct (isClosed ev) eqn:Hc; [|destruct (isOpened ev) eqn:Ho].
  - assert (isOpened ev = false) as Ho by (by destruct ev).
    destruct (Z.ltb_spec 0 n) as [Hpos|Hzero].
    + destruct (IH (n - 1)) as [k Hk]; [lia | done |].
      exists (S k). simpl. rewrite Hc, Ho. lia.
    + exists 1%nat. simpl. rewrite Hc, Ho. lia.
  - destruct (IH (n + 1)) as [k Hk]; [lia | done |].
    exists (S k). simpl. rewrite Hc, Ho. lia.
  - destruct (IH n) as [k Hk]; [lia | done |].
    exists (S k). simpl. rewrite Hc, Ho. lia.
Qed.

(** X1. From a watcher whose pending count is not negative, the tracker
    panics on a sequence of lifecycle events exactly when some prefix of it
    closes or abandons more connections than were pending plus opened; the
    panic is always the one of the wait group. *)
Theorem observe_panics_exactly (events : list ConnState) w
    (Hn : 0 ≤ connsWG w) :
  (observe w events = Panics "sync: negative WaitGroup counter"
   ↔ ∃ k : nat, connsWG w + opened (take k events) - closed (take k events) < 0)
  ∧ ∀ msg, observe w events = Panics msg →
           msg = "sync: negative WaitGroup counter".
Proof.
  destruct (wellFormedFrom (connsWG w) events) eqn:Hwf.
  - destruct (observe_wellFormed events w Hn Hwf) as (w' & Hobs & _).
    rewrite Hobs. split; [|done]. split; [done|].
    intros [k Hk].
    pose proof (proj1 (wellFormedFrom_prefixes _ events Hn) Hwf k). lia.
  - rewrite (observe_not_wellFormed events w Hn Hwf). split.
    + split; [|done]. intros _. by apply wellFormedFrom_false_prefix.
    + by intros msg [= <-].
Qed.

(** X2. Whenever the tracker returns from a sequence of lifecycle events,
    the pending count has moved by the number of opened events minus the
    number of closed/abandoned ones and is not negative, and the hooks and
    the timeout of the watcher are the ones it had. *)
Theorem observe_returns (events : list ConnState) w w'
    (Hn : 0 ≤ connsWG w)
    (Hobs : observe w events = Returns w') :
  connsWG w' = connsWG w + opened events - closed events
  ∧ 0 ≤ connsWG w'
  ∧ shutdownHooks w' = shutdownHooks w
  ∧ timeoutMS w' = timeoutMS w.
Proof.
  destruct (wellFormedFrom (connsWG w) events) eqn:Hwf.
  - destruct (observe_wellFormed events w Hn Hwf) as (w'' & Hobs' & H).
    rewrite Hobs in Hobs'. by injection Hobs' as <-.
  - by rewrite (observe_not_wellFormed events w Hn Hwf) in Hobs.
Qed.

(** Observing two sequences one after the other is observing their
    concatenation: the second is observed from the watcher the first one
    leaves, and a panic in the first ends the run. *)
Lemma observe_app (events1 events2 : list ConnState) w :
  observe w (events1 ++ events2) =
    match observe w events1 with
    | Returns w1 => observe w1 events2
    | Panics msg => Panics msg
    end.
Proof.
  revert w. induction events1 as [|ev rest IH]; intros w; [done|].
  cbn [app observe].
  destruct (RecordConnState (Some w) ev) as [w1|msg]; [apply IH | done].
Qed.

(** X4. When every connection that was opened has been closed or
    abandoned again, and none was closed before it was opened, the watcher
    is exactly what it was before the events. *)
Theorem observe_drained (events : list ConnState) w
    (Hn : 0 ≤ connsWG w)
    (Hwf : wellFormedFrom (connsWG w) events = true)
    (Hbal : opened events = closed events) :
  observe w events = Returns w.
Proof.
  destruct (observe_wellFormed events w Hn Hwf) as (w' & -> & Hc & _ & Hh & Ht).
  f_equal. apply watcher_eq; [lia | done..].
Qed.

End TrackerRuns.

(** Witness of X1: a watcher with one connection pending. *)
Lemma observe_panics_exactly_witness :
  (0 ≤ connsWG (Sample.busy Sample.cleanHooks))%Z
  ∧ (observe (Sample.busy Sample.cleanHooks) [StateClosed; StateHijacked]
       = Panics "sync: negative WaitGroup counter"
     ↔ ∃ k : nat,
         (connsWG (Sample.busy Sample.cleanHooks)
          + opened (take k [StateClosed; StateHijacked])
          - closed (take k [StateClosed; StateHijacked]) < 0)%Z)
  ∧ ∀ msg, observe (Sample.busy Sample.cleanHooks) [StateClosed; StateHijacked]
             = Panics msg →
           msg = "sync: negative WaitGroup counter".
Proof.
  split; [simpl; lia|].
  apply (observe_panics_exactly [StateClosed; StateHijacked]
           (Sample.busy Sample.cleanHooks)).
  simpl; lia.
Defined.

(** Witness of X2: opened, opened, abandoned, closed from a fresh watcher. *)
Lemma observe_returns_witness :
  (0 ≤ connsWG (Sample.fresh Sample.cleanHooks))%Z
  ∧ observe (Sample.fresh Sample.cleanHooks) Sample.lifecycle
      = Returns (Sample.fresh Sample.cleanHooks)
  ∧ connsWG (Sample.fresh Sample.cleanHooks)
      = (connsWG (Sample.fresh Sample.cleanHooks)
         + opened Sample.lifecycle - closed Sample.lifecycle)%Z
  ∧ (0 ≤ connsWG (Sample.fresh Sample.cleanHooks))%Z
  ∧ shutdownHooks (Sample.fresh Sample.cleanHooks)
      = shutdownHooks (Sample.fresh Sample.cleanHooks)
  ∧ timeoutMS (Sample.fresh Sample.cleanHooks)
      = timeoutMS (Sample.fresh Sample.cleanHooks).
Proof.
  split; [simpl; lia|]. split; [reflexivity|].
  apply (observe_returns Sample.lifecycle (Sample.fresh Sample.cleanHooks)
           (Sample.fresh Sample.cleanHooks)).
  - simpl; lia.
  - reflexivity.
Defined.

(** Witness of X4: opened, opened, abandoned, closed from a watcher with one
    connection pending. *)
Lemma observe_drained_witness :
  (0 ≤ connsWG (Sample.busy Sample.cleanHooks))%Z
  ∧ wellFormedFrom (connsWG (Sample.busy Sample.cleanHooks)) Sample.lifecycle = true
  ∧ opened Sample.lifecycle = closed Sample.lifecycle
  ∧ observe (Sample.busy Sample.cleanHooks) Sample.lifecycle
      = Returns (Sample.busy Sample.cleanHooks).
Proof.
  split; [simpl; lia|]. split; [reflexivity|]. split; [reflexivity|].
  apply (observe_drained Sample.lifecycle (Sample.busy Sample.cleanHooks)).
  - simpl; lia.
  - reflexivity.
  - reflexivity.
Defined.

(** ** Reading the traces of the code *)

Lemma callsIn_app (tr1 tr2 : list Event) :
  callsIn (tr1 ++ tr2) = callsIn tr1 ++ callsIn tr2.
Proof. apply omap_app. Qed.

Lemma exitCodes_app (tr1 tr2 : list Event) :
  exitCodes (tr1 ++ tr2) = exitCodes tr1 ++ exitCodes tr2.
Proof. apply omap_app. Qed.

Lemma stopsIn_app (tr1 tr2 : list Event) :
  stopsIn (tr1 ++ tr2) = stopsIn tr1 + stopsIn tr2.
Proof. unfold stopsIn. by rewrite list.filter_app, length_app. Qed.

Lemma exitCodes_hooks (i : nat) (es : list error) :
  exitCodes (imap (fun j => EvHook (i + j)) es) = [].
Proof.
  revert i. induction es as [|e es IH]; intros i; [done|].
  rewrite imap_cons. unfold exitCodes in *. cbn [omap list_omap exitCode].
  rewrite <- (IH (S i)). f_equal. apply imap_ext. intros j x _. simpl. f_equal. lia.
Qed.

Lemma stopsIn_hooks (i : nat) (es : list error) :
  stopsIn (imap (fun j => EvHook (i + j)) es) = 0.
Proof.
  revert i. induction es as [|e es IH]; intros i; [done|].
  rewrite imap_cons. unfold stopsIn in *.
  rewrite filter_cons_False by done.
  rewrite <- (IH (S i)). do 2 f_equal. apply imap_ext. intros j x _. simpl. f_equal. lia.
Qed.

(** What one call of [OnStop] adds to the trace, read three ways. *)
Lemma stop_segment (r : Race) (es : list error) :
  callsIn (EvSelect r :: imap EvHook es) = seq 0 (length es)
  ∧ exitCodes (EvSelect r :: imap EvHook es) = []
  ∧ stopsIn (EvSelect r :: imap EvHook es) = 1.
Proof.
  split; [|split].
  - apply (callsIn_imap_EvHook 0).
  - apply (exitCodes_hooks 0).
  - unfold stopsIn. rewrite filter_cons_True by done. cbn [length]. f_equal.
    apply (stopsIn_hooks 0).
Qed.

Lemma string_prefix_app (a b : string) : String.prefix a (a +:+ b) = true.
Proof.
  induction a as [|c a IH]; [by destruct b|].
  change (String c a +:+ b) with (String c (a +:+ b)). cbn [String.prefix].
  destruct (Ascii.ascii_dec c c); [exact IH | done].
Qed.

Lemma failures_nil (es : list error) :
  failures es = [] ↔ Forall (fun e => e = None) es.
Proof.
  induction es as [|[m|] es IH]; simpl.
  - split; [constructor | done].
  - split; [done|]. intros H. by inversion H.
  - rewrite IH. split; [by constructor | intros H; by inversion H].
Qed.

Lemma failures_app (es1 es2 : list error) :
  failures (es1 ++ es2) = failures es1 ++ failures es2.
Proof. apply omap_app. Qed.

(** ** The hook runner, further *)
Section HookRunnerMore.
Context {World : Type}.
Implicit Types (w : Watcher World) (p : Proc World).

Lemma hookOutcomes_app (hooks1 hooks2 : list (ShutdownHook World)) (s : World) :
  hookOutcomes (hooks1 ++ hooks2) s =
    ((hookOutcomes hooks1 s).1 ++ (hookOutcomes hooks2 (hookOutcomes hooks1 s).2).1,
     (hookOutcomes hooks2 (hookOutcomes hooks1 s).2).2).
Proof.
  revert s. induction hooks1 as [|f rest IH]; intros s.
  - simpl. by destruct (hookOutcomes hooks2 s).
  - cbn [app hookOutcomes]. destruct (f s) as [e s1]. rewrite IH.
    destruct (hookOutcomes rest s1) as [es1 s2]. cbn [fst snd].
    by destruct (hookOutcomes hooks2 s2).
Qed.

(** X5. For hooks that return, the error [RunHooks] returns for a
    watcher is nil exactly when every hook, called in order, each on the
    world the previous one left, returned nil. *)
Theorem RunHooks_nil_iff w p :
  (RunHooks (Some w) p).1 = Returns None
  ↔ Forall (fun e => e = None) (hookOutcomes (shutdownHooks w) (world p)).1.
Proof.
  rewrite RunHooks_outcomes, hooksResult_lines. cbn [fst].
  rewrite <- failures_nil.
  by destruct (failures (hookOutcomes (shutdownHooks w) (world p)).1).
Qed.

(** X6. The message of an error [RunHooks] returns for a watcher starts
    with "shutdown hook err: ", so it is never empty and never the message
    of the nil-receiver error. *)
Theorem RunHooks_message_prefix w p (msg : string)
    (Herr : (RunHooks (Some w) p).1 = Returns (Some msg)) :
  String.prefix "shutdown hook err: " msg = true
  ∧ msg ≠ ""
  ∧ msg ≠ "RunHooks: receiver is nil".
Proof.
  rewrite RunHooks_outcomes, hooksResult_lines in Herr. cbn [fst] in Herr.
  destruct (failures (hookOutcomes (shutdownHooks w) (world p)).1) as [|m0 ms];
    [done|].
  assert (msg = strings_Join (hookLine <$> m0 :: ms) newline) as ->
    by congruence.
  rewrite fmap_cons, strings_Join_cons.
  unfold hookLine at 1. rewrite string_app_assoc.
  split; [apply string_prefix_app|].
  change ("shutdown hook err: " +:+ ?x) with
    (String "s" ("hutdown hook err: " +:+ x)).
  split; intros H; discriminate H.
Qed.

(** X7. Running the hooks of a list [hooks1 ++ hooks2] is running those of
    [hooks1] and then those of [hooks2] on what they left: the same world
    at the end, and nil exactly when both runs give nil. *)
Theorem RunHooks_app (wg : WaitGroup.t) (timeout : Z)
    (hooks1 hooks2 : list (ShutdownHook World)) p :
  world (RunHooks (Some (mkWatcher wg (hooks1 ++ hooks2) timeout)) p).2
    = world (RunHooks (Some (mkWatcher wg hooks2 timeout))
               (RunHooks (Some (mkWatcher wg hooks1 timeout)) p).2).2
  ∧ ((RunHooks (Some (mkWatcher wg (hooks1 ++ hooks2) timeout)) p).1 = Returns None
     ↔ (RunHooks (Some (mkWatcher wg hooks1 timeout)) p).1 = Returns None
       ∧ (RunHooks (Some (mkWatcher wg hooks2 timeout))
            (RunHooks (Some (mkWatcher wg hooks1 timeout)) p).2).1 = Returns None).
Proof.
  rewrite !RunHooks_outcomes, !hooksResult_lines. cbn [fst snd world shutdownHooks].
  rewrite hookOutcomes_app. cbn [fst snd]. split; [done|].
  rewrite failures_app.
  destruct (failures (hookOutcomes hooks1 (world p)).1),
    (failures (hookOutcomes hooks2 (hookOutcomes hooks1 (world p)).2).1);
    cbn [app]; split; try done; by intros [? ?].
Qed.

End HookRunnerMore.

(** Witness of X6: of three hooks the first and the last fail. *)
Lemma RunHooks_message_prefix_witness :
  (RunHooks (Some (Sample.fresh Sample.brokenHooks)) Sample.start).1
    = Returns (Some ("shutdown hook err: disk full" +:+ newline
                       +:+ "shutdown hook err: no lock"))
  ∧ String.prefix "shutdown hook err: "
      ("shutdown hook err: disk full" +:+ newline +:+ "shutdown hook err: no lock")
    = true
  ∧ ("shutdown hook err: disk full" +:+ newline +:+ "shutdown hook err: no lock") ≠ ""
  ∧ ("shutdown hook err: disk full" +:+ newline +:+ "shutdown hook err: no lock")
    ≠ "RunHooks: receiver is nil".
Proof.
  split; [reflexivity|].
  apply (RunHooks_message_prefix (Sample.fresh Sample.brokenHooks) Sample.start).
  reflexivity.
Defined.

(** ** Shutdown, further *)
Section StopMore.
Context {World : Type}.
Implicit Types (w : Watcher World) (p : Proc World).

(** X9. [OnStop] keeps no record of having run: calls made one after the
    other on the same watcher each resolve their own select and run every
    hook again, in order, so after [k] calls every hook has been called [k]
    times. *)
Theorem OnStop_again w (races : list Race) p :
  ∃ p' evs,
    foldr (fun r k => bind (OnStop (Some w) r) (fun _ => k)) (ret tt) races p
      = (Returns tt, p')
    ∧ trace p' = trace p ++ evs
    ∧ stopsIn evs = length races
    ∧ callsIn evs
        = concat (replicate (length races) (seq 0 (length (shutdownHooks w)))).
Proof.
  revert p. induction races as [|r races IH]; intros p.
  - exists p, []. by rewrite app_nil_r.
  - cbn [foldr]. unfold bind at 1. rewrite OnStop_outcomes.
    match goal with
    | |- context [foldr _ _ races ?q] => destruct (IH q) as (p' & evs & -> & Htr & Hs & Hc)
    end.
    cbn [trace] in Htr.
    destruct (stop_segment r (hookOutcomes (shutdownHooks w) (world p)).1)
      as (Hcalls & _ & Hstops).
    rewrite hookOutcomes_length in Hcalls.
    eexists p', (_ ++ evs). split; [done|].
    split; [by rewrite Htr, <- app_assoc|].
    rewrite stopsIn_app, callsIn_app, Hstops, Hcalls, Hs, Hc. done.
Qed.

(** ** The signal loop over a whole stream *)

Lemma noInterrupt_cons (sig : Signal) (r : Race) (sigs : list (Signal * Race)) :
  noInterrupt ((sig, r) :: sigs) = true ↔ sig ≠ SIGINT ∧ noInterrupt sigs = true.
Proof.
  unfold noInterrupt. cbn [forallb fst]. rewrite andb_true_iff, negb_true_iff.
  destruct (Z.eqb_spec sig SIGINT); intuition congruence.
Qed.

Lemma terminates_not_interrupt (sig : Signal) :
  terminates sig = true → sig ≠ SIGINT.
Proof. intros H ->. discriminate H. Qed.

(** X10. On a stream without SIGINT, [SigHandle] returns when the stream
    ends. It has called [OnStop] once per SIGTERM, SIGQUIT or SIGHUP, each
    call running every hook in order, and nothing for any other signal.
    The exit codes it sent are, signal after signal, 0 when the drain-wait
    won and 1 followed by 0 when the timer won; what the hooks return
    plays no part in them. *)
Theorem SigHandle_stream w (sigs : list (Signal * Race)) p
    (Hsigs : noInterrupt sigs = true) :
  ∃ p' evs,
    SigHandle (Some w) sigs p = (Returns tt, p')
    ∧ trace p' = trace p ++ evs
    ∧ exitCodes evs = concat (codesFor <$> sigs)
    ∧ stopsIn evs = length (stopSignals sigs)
    ∧ callsIn evs
        = concat (replicate (length (stopSignals sigs))
                    (seq 0 (length (shutdownHooks w)))).
Proof.
  cbn [SigHandle]. revert p Hsigs.
  induction sigs as [|[sig r] sigs IH]; intros p Hsigs.
  - exists p, []. by rewrite app_nil_r.
  - apply noInterrupt_cons in Hsigs as [Hint Hsigs].
    unfold stopSignals, codesFor. cbn [List.filter fmap list_fmap concat fst snd].
    fold (stopSignals sigs).
    change (list_fmap _ _ (fun sr => if terminates sr.1
                                     then match sr.2 with
                                          | DrainedFirst => [0%Z]
                                          | TimerFirst => [1%Z; 0%Z]
                                          end
                                     else []) sigs)
      with (codesFor <$> sigs).
    destruct (terminates sig) eqn:Hterm.
    + rewrite (sigLoop_terminating w sig r sigs p Hterm).
      match goal with
      | |- context [sigLoop w sigs ?q] =>
          destruct (IH q Hsigs) as (p' & evs & -> & Htr & He & Hs & Hc)
      end.
      cbn [trace] in Htr.
      destruct (stop_segment r (hookOutcomes (shutdownHooks w) (world p)).1)
        as (Hcalls & Hexits & Hstops).
      rewrite hookOutcomes_length in Hcalls.
      exists p', ((EvSelect r :: imap EvHook (hookOutcomes (shutdownHooks w) (world p)).1)
                  ++ (match r with
                      | DrainedFirst => [EvExit 0]
                      | TimerFirst => [EvExit 1; EvExit 0]
                      end) ++ evs).
      split; [done|].
      split; [by rewrite Htr, <- !app_assoc|].
      rewrite !exitCodes_app, !stopsIn_app, !callsIn_app.
      rewrite Hexits, Hstops, Hcalls, He, Hs, Hc.
      by destruct r.
    + rewrite (sigLoop_ignored w sig r sigs p Hterm Hint).
      destruct (IH p Hsigs) as (p' & evs & -> & Htr & He & Hs & Hc).
      by exists p', evs.
Qed.

(** X11. The first SIGINT of the stream makes [SigHandle] panic with
    "panic exit". The signals before it have been handled as usual; the
    SIGINT itself calls no hook and sends no exit code, and the signals
    after it are never looked at. *)
Theorem SigHandle_interrupt w (before after : list (Signal * Race)) (r : Race) p
    (Hbefore : noInterrupt before = true) :
  (SigHandle (Some w) before p).1 = Returns tt
  ∧ SigHandle (Some w) (before ++ (SIGINT, r) :: after) p
    = (Panics "panic exit", (SigHandle (Some w) before p).2).
Proof.
  cbn [SigHandle]. revert p Hbefore.
  induction before as [|[sig r'] before IH]; intros p Hbefore; [done|].
  apply noInterrupt_cons in Hbefore as [Hint Hbefore]. cbn [app].
  destruct (terminates sig) eqn:Hterm.
  - rewrite !(sigLoop_terminating w sig r' _ p Hterm). by apply IH.
  - rewrite !(sigLoop_ignored w sig r' _ p Hterm Hint). by apply IH.
Qed.

(** X12. Signals other than SIGTERM, SIGQUIT, SIGHUP and SIGINT have no
    effect at all: [SigHandle] does on a stream what it does on the stream
    with those signals taken out. *)
Theorem SigHandle_ignores w (sigs : list (Signal * Race)) p :
  SigHandle (Some w) sigs p = SigHandle (Some w) (List.filter handled sigs) p.
Proof.
  cbn [SigHandle]. revert p.
  induction sigs as [|[sig r] sigs IH]; intros p; [done|].
  unfold handled at 1. cbn [List.filter fst].
  fold (List.filter handled sigs).
  destruct (terminates sig) eqn:Hterm; cbn [orb].
  - rewrite !(sigLoop_terminating w sig r _ p Hterm). apply IH.
  - destruct (Z.eqb_spec sig SIGINT) as [->|Hint].
    + by rewrite !sigLoop_interrupt.
    + rewrite (sigLoop_ignored w sig r sigs p Hterm Hint). apply IH.
Qed.

End StopMore.

(** Witness of X10: SIGHUP with the drain-wait first, an unhandled signal,
    SIGTERM with the timer first. *)
Lemma SigHandle_stream_witness :
  noInterrupt [(SIGHUP, DrainedFirst); (10%Z, DrainedFirst); (SIGTERM, TimerFirst)] = true
  ∧ ∃ p' evs,
      SigHandle (Some (Sample.fresh Sample.cleanHooks))
        [(SIGHUP, DrainedFirst); (10%Z, DrainedFirst); (SIGTERM, TimerFirst)]
        Sample.start = (Returns tt, p')
      ∧ trace p' = trace Sample.start ++ evs
      ∧ exitCodes evs
          = concat (codesFor <$> [(SIGHUP, DrainedFirst); (10%Z, DrainedFirst);
                                  (SIGTERM, TimerFirst)])
      ∧ stopsIn evs
          = length (stopSignals [(SIGHUP, DrainedFirst); (10%Z, DrainedFirst);
                                 (SIGTERM, TimerFirst)])
      ∧ callsIn evs
          = concat (replicate
                      (length (stopSignals [(SIGHUP, DrainedFirst); (10%Z, DrainedFirst);
                                            (SIGTERM, TimerFirst)]))
                      (seq 0 (length (shutdownHooks (Sample.fresh Sample.cleanHooks))))).
Proof.
  split; [reflexivity|].
  apply (SigHandle_stream (Sample.fresh Sample.cleanHooks)
           [(SIGHUP, DrainedFirst); (10%Z, DrainedFirst); (SIGTERM, TimerFirst)]
           Sample.start).
  reflexivity.
Defined.

(** Witness of X11: SIGHUP is handled, SIGINT panics, SIGTERM is never
    reached. *)
Lemma SigHandle_interrupt_witness :
  noInterrupt [(SIGHUP, DrainedFirst)] = true
  ∧ (SigHandle (Some (Sample.fresh Sample.cleanHooks)) [(SIGHUP, DrainedFirst)]
       Sample.start).1 = Returns tt
  ∧ SigHandle (Some (Sample.fresh Sample.cleanHooks))
      ([(SIGHUP, DrainedFirst)] ++ (SIGINT, DrainedFirst) :: [(SIGTERM, TimerFirst)])
      Sample.start
    = (Panics "panic exit",
       (SigHandle (Some (Sample.fresh Sample.cleanHooks)) [(SIGHUP, DrainedFirst)]
          Sample.start).2).
Proof.
  split; [reflexivity|].
  apply (SigHandle_interrupt (Sample.fresh Sample.cleanHooks)
           [(SIGHUP, DrainedFirst)] [(SIGTERM, TimerFirst)] DrainedFirst Sample.start).
  reflexivity.
Defined.

(** ** Invocations in flight never wait for one another *)
Section InFlightProgress.
Context {World : Type}.
Implicit Types (w : Watcher World) (sh : Shared World).

(** A step takes the invocation one step further, until it has returned. *)
Lemma stepOnStop_stepsTaken w (g : nat) (pc : Pc) sh :
  stepsTaken (length (shutdownHooks w)) pc ≤ length (shutdownHooks w) + 2 →
  stepsTaken (length (shutdownHooks w)) (stepOnStop w g pc sh).1
    = (S (stepsTaken (length (shutdownHooks w)) pc))
        `min` (length (shutdownHooks w) + 2).
Proof.
  destruct pc as [r|r i errStrs|e]; cbn [stepOnStop stepsTaken]; intros Hle.
  - cbn [fst stepsTaken]. lia.
  - destruct (shutdownHooks w !! i) as [f|] eqn:Hi.
    + apply lookup_lt_Some in Hi. unfold hookIter.
      destruct (f _) as [[m|] s]; cbn [fst stepsTaken]; lia.
    + apply lookup_ge_None in Hi. cbn [fst stepsTaken]. lia.
  - cbn [fst stepsTaken]. lia.
Qed.

Lemma turnsOf_cons (g g0 : nat) (sched : list nat) :
  turnsOf g (g0 :: sched) = (if decide (g0 = g) then 1 else 0) + turnsOf g sched.
Proof.
  unfold turnsOf. cbn [List.filter].
  destruct (Nat.eqb_spec g g0) as [->|Hne].
  - by rewrite decide_True.
  - by rewrite decide_False by congruence.
Qed.

(** After a schedule, a goroutine is as many steps further as it had
    turns, up to its return. *)
Lemma runSched_stepsTaken w (sched : list nat) (cfg : list Pc * Shared World)
    (g : nat) (pc : Pc) :
  cfg.1 !! g = Some pc →
  stepsTaken (length (shutdownHooks w)) pc ≤ length (shutdownHooks w) + 2 →
  ∃ pc',
    (runSched w sched cfg).1 !! g = Some pc'
    ∧ stepsTaken (length (shutdownHooks w)) pc'
      = (stepsTaken (length (shutdownHooks w)) pc + turnsOf g sched)
          `min` (length (shutdownHooks w) + 2).
Proof.
  revert cfg pc. induction sched as [|g0 sched IH]; intros cfg pc Hpc Hle.
  - exists pc. split; [done|]. unfold turnsOf. simpl. lia.
  - rewrite runSched_cons, turnsOf_cons.
    destruct (decide (g0 = g)) as [->|Hne].
    + pose proof (stepOnStop_stepsTaken w g pc cfg.2 Hle) as Hstep.
      destruct (IH (schedStep w cfg g) (stepOnStop w g pc cfg.2).1)
        as (pc' & Hpc' & Hsteps).
      { unfold schedStep. rewrite Hpc.
        destruct (stepOnStop w g pc cfg.2) as [pc1 sh1]. cbn [fst].
        apply list_lookup_insert_eq. by eapply lookup_lt_Some. }
      { lia. }
      exists pc'. split; [done|]. lia.
    + destruct (IH (schedStep w cfg g0) pc) as (pc' & Hpc' & Hsteps).
      { unfold schedStep. destruct (cfg.1 !! g0) as [pc0|]; [|done].
        destruct (stepOnStop w g0 pc0 cfg.2) as [pc1 sh1]. cbn [fst].
        by rewrite list_lookup_insert_ne. }
      { done. }
      exists pc'. split; [done|]. lia.
Qed.

(** X13. An invocation of [OnStop] in flight with others returns after its
    own steps, a select, one step per hook and the return, wherever the
    steps of the others fall: once it has had that many turns it has
    returned what its own race says, having called every hook once, in
    order. No invocation waits for another. *)
Theorem OnStop_in_flight_returns w (races : list Race) (sched : list nat)
    (s : World) (g : nat) (r : Race)
    (Hg : races !! g = Some r)
    (Hturns : length (shutdownHooks w) + 2 ≤ turnsOf g sched) :
  (runSched w sched (inFlight races, {| sworld := s; strace := [] |})).1 !! g
    = Some (Returned (stopErr r))
  ∧ ∃ tr,
      ofGoroutine g
        (strace (runSched w sched (inFlight races, {| sworld := s; strace := [] |})).2)
        = EvSelect r :: tr
      ∧ callsIn tr = seq 0 (length (shutdownHooks w))
      ∧ length tr = length (shutdownHooks w).
Proof.
  destruct (runSched_invariant w races sched _
              (inFlight_invariant (length (shutdownHooks w)) races s) g r Hg)
    as (pc & Hpc & Hown).
  destruct (runSched_stepsTaken w sched
              (inFlight races, {| sworld := s; strace := [] |}) g (AtSelect r))
    as (pc' & Hpc' & Hsteps).
  { unfold inFlight. cbn [fst]. by rewrite list_lookup_fmap, Hg. }
  { simpl. lia. }
  rewrite Hpc in Hpc'. injection Hpc' as <-.
  destruct pc as [r'|r' i errStrs|e]; cbn [stepsTaken ownEvents] in *.
  - lia.
  - destruct Hown as (_ & Hi & _). lia.
  - destruct Hown as (-> & Htr). by rewrite Hpc.
Qed.

End InFlightProgress.

(** Witness of X13: two invocations stepping in turn on a watcher with two
    hooks; the second has four turns. *)
Lemma OnStop_in_flight_returns_witness :
  [DrainedFirst; TimerFirst] !! 1 = Some TimerFirst
  ∧ length (shutdownHooks (Sample.busy Sample.cleanHooks)) + 2
      ≤ turnsOf 1 Sample.inTurn
  ∧ (runSched (Sample.busy Sample.cleanHooks) Sample.inTurn
       (inFlight [DrainedFirst; TimerFirst], {| sworld := []; strace := [] |})).1 !! 1
      = Some (Returned (stopErr TimerFirst))
  ∧ ∃ tr,
      ofGoroutine 1
        (strace (runSched (Sample.busy Sample.cleanHooks) Sample.inTurn
                   (inFlight [DrainedFirst; TimerFirst],
                    {| sworld := []; strace := [] |})).2)
        = EvSelect TimerFirst :: tr
      ∧ callsIn tr = seq 0 (length (shutdownHooks (Sample.busy Sample.cleanHooks)))
      ∧ length tr = length (shutdownHooks (Sample.busy Sample.cleanHooks)).
Proof.
  split; [reflexivity|]. split; [vm_compute; lia|].
  apply (OnStop_in_flight_returns (Sample.busy Sample.cleanHooks)
           [DrainedFirst; TimerFirst] Sample.inTurn [] 1 TimerFirst).
  - reflexivity.
  - vm_compute; lia.
Defined.

(** ** The race of [OnStop] *)

(** A timeout of at most [maxTimeoutMS] milliseconds arms the timer with
    that many milliseconds. *)
Lemma timer_in_range {World : Type} (w : Watcher World) :
  (0 ≤ timeoutMS w ≤ maxTimeoutMS)%Z →
  timeAfter (timerDuration w) = (timeoutMS w * Millisecond)%Z.
Proof.
  unfold timeAfter, timerDuration, wrap64, maxTimeoutMS, Millisecond.
  intros Hrange.
  change (2 ^ 63)%Z with 9223372036854775808%Z.
  change (2 ^ 64)%Z with 18446744073709551616%Z.
  rewrite Z.mod_small by lia. lia.
Qed.

Section RaceProperties.
Context {World : Type}.
Implicit Types (w : Watcher World) (p : Proc World).
Local Open Scope Z_scope.

(** [staysBusy] says what its comment says. *)
Lemma staysBusy_prefixes w (events : list ConnState) :
  staysBusy w events = true →
  ∀ k : nat, ∃ w', observe w (take k events) = Returns w' ∧ connsWG w' ≠ 0.
Proof.
  revert w. induction events as [|st rest IH]; intros w Hbusy k.
  - rewrite take_nil. exists w. split; [done|].
    simpl in Hbusy. rewrite andb_true_r in Hbusy.
    apply negb_true_iff in Hbusy. by apply Z.eqb_neq.
  - cbn [staysBusy] in Hbusy. apply andb_true_iff in Hbusy as [Hnz Hrest].
    apply negb_true_iff, Z.eqb_neq in Hnz.
    destruct k as [|k]; [by exists w|].
    cbn [take observe].
    destruct (RecordConnState (Some w) st) as [w1|msg]; [|done].
    by apply IH.
Qed.


(** The wait, when the count stays away from zero until an arrival later
    than the timer, or until there is none left. *)
Lemma waitRace_timer (before after : list (Z * ConnState)) w
    (timer : Z) (tie : Race) :
  staysBusy w (before.*2) = true →
  startsAfter timer after = true →
  waitRace w timer tie (before ++ after) = Returns TimerFirst.
Proof.
  revert w. induction before as [|[t st] before IH]; intros w Hbusy Hafter.
  - cbn [app]. destruct after as [|[t st] after]; [done|].
    cbn [startsAfter] in Hafter. cbn [waitRace]. by rewrite Hafter.
  - cbn [app waitRace]. cbn [fmap list_fmap snd staysBusy] in Hbusy.
    apply andb_true_iff in Hbusy as [_ Hbusy].
    destruct (timer <? t); [done|].
    destruct (RecordConnState (Some w) st) as [w1|msg]; [|done].
    assert (connsWG w1 ≠ 0) as Hnz1.
    { destruct before; cbn [fmap list_fmap staysBusy] in Hbusy;
        apply andb_true_iff in Hbusy as [Hnz _];
        by apply negb_true_iff, Z.eqb_neq in Hnz. }
    destruct (Z.eqb_spec (connsWG w1) 0); [done|]. by apply IH.
Qed.

(** Where the drain-wait case of the select comes from: the count was zero
    at the call, or some arrivals no later than the timer brought it to
    zero. *)
Lemma waitRace_DrainedFirst (arrivals : list (Z * ConnState)) w
    (timer : Z) (tie : Race) :
  waitRace w timer tie arrivals = Returns DrainedFirst →
  ∃ before after w',
    arrivals = before ++ after
    ∧ observe w (before.*2) = Returns w'
    ∧ connsWG w' = 0
    ∧ Forall (fun a => a.1 ≤ timer) before.
Proof.
  revert w. induction arrivals as [|[t st] arrivals IH]; intros w Hrace; [done|].
  cbn [waitRace] in Hrace.
  destruct (Z.ltb_spec timer t) as [|Hle]; [done|].
  destruct (RecordConnState (Some w) st) as [w1|msg] eqn:Hrec; [|done].
  destruct (Z.eqb_spec (connsWG w1) 0) as [Hz|Hnz].
  - exists [(t, st)], arrivals, w1. split; [done|].
    cbn [fmap list_fmap snd observe]. rewrite Hrec. split; [done|].
    split; [done|]. by constructor.
  - destruct (IH w1 Hrace) as (before & after & w' & -> & Hobs & Hzero & Hall).
    exists ((t, st) :: before), after, w'. split; [done|].
    cbn [fmap list_fmap snd observe]. rewrite Hrec. split; [done|].
    split; [done|]. by constructor.
Qed.

(** X8. When [OnStop] returns nil, the receiver was not nil and the
    connections had drained: the pending count was zero at the call, or
    the calls of [RecordConnState] that arrived up to some point, none later
    than the timer, all returned and brought it to zero. *)
Theorem OnStopTimed_nil_drained (ow : option (Watcher World)) (tie : Race)
    (arrivals : list (Z * ConnState)) p
    (Hnil : (OnStopTimed ow tie arrivals p).1 = Returns None) :
  ∃ w before after w',
    ow = Some w
    ∧ arrivals = before ++ after
    ∧ observe w (before.*2) = Returns w'
    ∧ connsWG w' = 0
    ∧ Forall (fun a => a.1 ≤ timeAfter (timerDuration w)) before.
Proof.
  destruct ow as [w|]; [|done]. cbn [OnStopTimed] in Hnil.
  destruct (selectRace w tie arrivals) as [r|msg] eqn:Hsel; [|done].
  rewrite OnStop_outcomes in Hnil. cbn [fst] in Hnil.
  destruct r; [|done]. unfold selectRace in Hsel.
  destruct (Z.eqb_spec (connsWG w) 0) as [Hz|Hnz].
  - exists w, [], arrivals, w. split; [done|]. split; [done|]. split; [done|].
    split; [done | constructor].
  - destruct (waitRace_DrainedFirst arrivals w _ tie Hsel)
      as (before & after & w' & ? & ? & ? & ?).
    by exists w, before, after, w'.
Qed.


(** X15. With a timeout of at most [maxTimeoutMS] milliseconds: when the
    pending count is not zero at the call and stays away from zero until an
    arrival later than the grace period, or until there is no arrival left,
    [OnStop] takes the timer case: every hook is still called once, in
    order, after the select, and the result is the error "OnStop: shutdown
    timed out". *)
Theorem OnStopTimed_grace_elapsed w (tie : Race)
    (before after : list (Z * ConnState)) p
    (Hrange : 0 ≤ timeoutMS w ≤ maxTimeoutMS)
    (Hbusy : staysBusy w (before.*2) = true)
    (Hafter : startsAfter (timeoutMS w * Millisecond) after = true) :
  ∃ es s',
    hookOutcomes (shutdownHooks w) (world p) = (es, s')
    ∧ OnStopTimed (Some w) tie (before ++ after) p
      = (Returns (Some "OnStop: shutdown timed out"),
         {| world := s'; trace := trace p ++ EvSelect TimerFirst :: imap EvHook es |})
    ∧ callsIn (imap EvHook es) = seq 0 (length (shutdownHooks w)).
Proof.
  assert (selectRace w tie (before ++ after) = Returns TimerFirst) as Hsel.
  { unfold selectRace. rewrite timer_in_range by lia.
    assert (connsWG w ≠ 0) as Hnz.
    { destruct before; cbn [fmap list_fmap staysBusy] in Hbusy;
        apply andb_true_iff in Hbusy as [Hnz _];
        by apply negb_true_iff, Z.eqb_neq in Hnz. }
    destruct (Z.eqb_spec (connsWG w) 0); [done|]. by apply waitRace_timer. }
  cbn [OnStopTimed]. rewrite Hsel, OnStop_outcomes.
  pose proof (hookOutcomes_length (shutdownHooks w) (world p)) as Hlen.
  destruct (hookOutcomes (shutdownHooks w) (world p)) as [es s'].
  cbn [fst snd] in *. exists es, s'. split; [done|]. split; [done|].
  rewrite <- Hlen. apply (callsIn_imap_EvHook 0).
Qed.

End RaceProperties.

(** Witness of X8: one connection open at the call, closed one millisecond
    later, with a timeout of 3000 ms. *)
Lemma OnStopTimed_nil_drained_witness :
  (OnStopTimed (Some (Sample.busy Sample.cleanHooks)) TimerFirst
     Overflow.arrivals Sample.start).1 = Returns None
  ∧ ∃ w before after w',
      Some (Sample.busy Sample.cleanHooks) = Some w
      ∧ Overflow.arrivals = before ++ after
      ∧ observe w (before.*2) = Returns w'
      ∧ connsWG w' = 0%Z
      ∧ Forall (fun a => (a.1 ≤ timeAfter (timerDuration w))%Z) before.
Proof.
  split; [reflexivity|].
  apply (OnStopTimed_nil_drained (Some (Sample.busy Sample.cleanHooks)) TimerFirst
           Overflow.arrivals Sample.start).
  reflexivity.
Defined.


(** Witness of X15: one connection open at the call, a second one opens
    one second later, and the first close comes a millisecond after the
    3000 ms have elapsed. *)
Lemma OnStopTimed_grace_elapsed_witness :
  (0 ≤ timeoutMS (Sample.busy Sample.cleanHooks) ≤ maxTimeoutMS)%Z
  ∧ staysBusy (Sample.busy Sample.cleanHooks) ([(1000000000%Z, StateNew)].*2) = true
  ∧ startsAfter (timeoutMS (Sample.busy Sample.cleanHooks) * Millisecond)
      [(3001000000%Z, StateClosed)] = true
  ∧ ∃ es s',
      hookOutcomes (shutdownHooks (Sample.busy Sample.cleanHooks)) (world Sample.start)
        = (es, s')
      ∧ OnStopTimed (Some (Sample.busy Sample.cleanHooks)) DrainedFirst
          ([(1000000000%Z, StateNew)] ++ [(3001000000%Z, StateClosed)]) Sample.start
        = (Returns (Some "OnStop: shutdown timed out"),
           {| world := s';
              trace := trace Sample.start ++ EvSelect TimerFirst :: imap EvHook es |})
      ∧ callsIn (imap EvHook es)
          = seq 0 (length (shutdownHooks (Sample.busy Sample.cleanHooks))).
Proof.
  split; [unfold maxTimeoutMS; simpl; lia|]. split; [reflexivity|].
  split; [reflexivity|].
  apply (OnStopTimed_grace_elapsed (Sample.busy Sample.cleanHooks) DrainedFirst
           [(1000000000%Z, StateNew)] [(3001000000%Z, StateClosed)] Sample.start).
  - unfold maxTimeoutMS; simpl; lia.
  - reflexivity.
  - reflexivity.
Defined.

(** C1 at its failing input: [NewWatcher] accepts a timeout of
    9223372036855 ms; a connection opens; [OnStop] is called and the
    connection closes one millisecond later, long before the grace
    period has elapsed. The duration handed to [time.After] has wrapped
    around to a negative number, so the timer delivers at once: [OnStop]
    runs the hooks and returns the error "OnStop: shutdown timed out",
    whichever way a tie would go. With a timeout of 3000 ms the same run
    returns nil. *)
Lemma C1_overflowing_timeout_times_out_at_once :
  NewWatcher Overflow.timeout Sample.cleanHooks = (Some Overflow.fresh, None)
  ∧ observe Overflow.fresh [StateNew] = Returns Overflow.busy
  ∧ (timeoutMS Overflow.busy * Millisecond = 9223372036855000000)%Z
  ∧ timerDuration Overflow.busy = (-9223372036854551616)%Z
  ∧ timeAfter (timerDuration Overflow.busy) = 0%Z
  ∧ allBefore (timeoutMS Overflow.busy * Millisecond) Overflow.arrivals = true
  ∧ observe Overflow.busy (Overflow.arrivals.*2) = Returns Overflow.fresh
  ∧ connsWG Overflow.fresh = 0%Z
  ∧ OnStopTimed (Some Overflow.busy) DrainedFirst Overflow.arrivals Sample.start
    = (Returns (Some "OnStop: shutdown timed out"),
       {| world := ["flush"; "close"];
          trace := [EvSelect TimerFirst; EvHook 0 None; EvHook 1 None] |})
  ∧ OnStopTimed (Some Overflow.busy) TimerFirst Overflow.arrivals Sample.start
    = (Returns (Some "OnStop: shutdown timed out"),
       {| world := ["flush"; "close"];
          trace := [EvSelect TimerFirst; EvHook 0 None; EvHook 1 None] |})
  ∧ OnStopTimed (Some (Sample.busy Sample.cleanHooks)) TimerFirst
      Overflow.arrivals Sample.start
    = (Returns None,
       {| world := ["flush"; "close"];
          trace := [EvSelect DrainedFirst; EvHook 0 None; EvHook 1 None] |}).
Proof. repeat split. Qed.
